(** * yaml_log: flattening, width-aware truncation and the per-file report

    A shallow embedding of [scripts/deploy/yaml_log.py].  Python values
    are modelled by inductive types, the generator [flatten] by the list
    of the pairs it yields, [sys.exit] by an explicit result type, and
    the libraries the script imports (wcwidth, ruamel.yaml, tabulate,
    pathlib's directory scan) by section variables. *)

From Stdlib Require Import String Ascii DecimalString.
From Stdlib Require Import List ZArith Lia Bool Arith.
From Stdlib Require Import Permutation Sorting.Sorted.
From Stdlib Require Import Floats.SpecFloat.
Import ListNotations.

Set Implicit Arguments.

(** ** Python strings *)

(** A Python [str] is a sequence of Unicode code points. *)
Definition char := N.
Definition pystr := list char.

(** A string literal of the script (all of them are ASCII). *)
Definition lit (s : string) : pystr :=
  map N_of_ascii (list_ascii_of_string s).

Definition str_eqb (s t : pystr) : bool :=
  if list_eq_dec N.eq_dec s t then true else false.

(** [sep.join(parts)] *)
Fixpoint join (sep : pystr) (parts : list pystr) : pystr :=
  match parts with
  | [] => []
  | [p] => p
  | p :: rest => p ++ sep ++ join sep rest
  end.

(** [str(i)] for an [int]. *)
Definition str_int (z : Z) : pystr :=
  lit (NilZero.string_of_int (Z.to_int z)).

(** [s.endswith(suffix)] *)
Definition endswith (s suffix : pystr) : bool :=
  (length suffix <=? length s)%nat
  && str_eqb (skipn (length s - length suffix) s) suffix.

(** ** Document trees *)

(** What the safe loader can put at a leaf.  Besides the core YAML types
    it builds a few more terminal objects (bytes, dates, sets, tuples);
    the script only ever looks at their type name, their [str()] and
    their truth value, which [PyOther] records. *)
Inductive scalar : Type :=
| PyNone
| PyBool (b : bool)
| PyInt (z : Z)
| PyFloat (f : spec_float)
| PyStr (s : pystr)
| PyOther (type_name : pystr) (str_form : pystr) (truth : bool).

(** A parsed document: [dict] (entries in insertion order, as
    [dict.items()] iterates them), [list], or anything else. *)
#[warnings="-register-all"]
Inductive node : Type :=
| PyDict (items : list (scalar * node))
| PyList (elems : list node)
| Leaf (v : scalar).

(** A key path is a Python list holding mapping keys and [int] indices. *)
Definition path := list scalar.
Definition entry := (path * scalar)%type.

Fixpoint node_size (n : node) : nat :=
  match n with
  | PyDict items => S (list_sum (map (fun '(_, v) => node_size v) items))
  | PyList elems => S (list_sum (map node_size elems))
  | Leaf _ => 1
  end.

Section NodeInd.
Variable P : node -> Prop.
Hypothesis Hdict :
  forall items, Forall (fun kv => P (snd kv)) items -> P (PyDict items).
Hypothesis Hlist : forall elems, Forall P elems -> P (PyList elems).
Hypothesis Hleaf : forall v, P (Leaf v).

Fixpoint node_rect' (n : node) : P n :=
  match n with
  | PyDict items =>
      Hdict ((fix go (l : list (scalar * node)) :
                Forall (fun kv => P (snd kv)) l :=
                match l with
                | [] => Forall_nil _
                | (k, v) :: l' =>
                    @Forall_cons _ (fun kv => P (snd kv)) (k, v) l'
                      (node_rect' v) (go l')
                end) items)
  | PyList elems =>
      Hlist ((fix go (l : list node) : Forall P l :=
                match l with
                | [] => Forall_nil _
                | x :: l' => Forall_cons x (node_rect' x) (go l')
                end) elems)
  | Leaf v => Hleaf v
  end.
End NodeInd.

(** ** flatten *)

(** [enumerate(xs)] *)
Definition enumerate (A : Type) (xs : list A) : list (nat * A) :=
  combine (seq 0 (length xs)) xs.

(** [stack.pop()]: removes and returns the last element. *)
Definition pop (A : Type) (stack : list A) : option (list A * A) :=
  match rev stack with
  | [] => None
  | x :: r => Some (rev r, x)
  end.

Definition work := (node * path)%type.

(** One [for] loop pushing the children of a mapping. *)
Definition push_items (stack : list work) (pth : path)
    (items : list (scalar * node)) : list work :=
  fold_left (fun st '(k, v) => st ++ [(v, pth ++ [k])]) items stack.

(** One [for] loop pushing the elements of a sequence. *)
Definition push_elems (stack : list work) (pth : path)
    (elems : list node) : list work :=
  fold_left (fun st '(i, item) => st ++ [(item, pth ++ [PyInt (Z.of_nat i)])])
    (enumerate elems) stack.

(** The [while stack:] loop.  [fuel] bounds the number of iterations;
    [None] means the bound was reached before the stack emptied. *)
Fixpoint flatten_loop (fuel : nat) (stack : list work) : option (list entry) :=
  match fuel with
  | O => None
  | S fuel' =>
      match pop stack with
      | None => Some []
      | Some (stack', (nd, pth)) =>
          match nd with
          | PyDict items => flatten_loop fuel' (push_items stack' pth items)
          | PyList elems => flatten_loop fuel' (push_elems stack' pth elems)
          | Leaf v =>
              option_map (cons (pth, v)) (flatten_loop fuel' stack')
          end
      end
  end.

(** [path or []] *)
Definition path_or_empty (p : option path) : path :=
  match p with
  | Some ((_ :: _) as q) => q
  | _ => []
  end.

Definition stack_size (stack : list work) : nat :=
  list_sum (map (fun w => node_size (fst w)) stack).

(** The pairs [flatten(obj, path)] yields, in the order it yields them.
    One iteration pops one node, so the number of nodes plus one is
    enough iterations ([flatten_loop_total] below). *)
Definition flatten (obj : node) (p : option path) : list entry :=
  match flatten_loop (S (node_size obj)) [(obj, path_or_empty p)] with
  | Some es => es
  | None => []
  end.

(** *** Reference traversals *)

(** The work items one iteration pushes for a popped node. *)
Definition children (n : node) (pth : path) : list work :=
  match n with
  | PyDict items => map (fun '(k, v) => (v, pth ++ [k])) items
  | PyList elems =>
      map (fun '(i, item) => (item, pth ++ [PyInt (Z.of_nat i)]))
        (enumerate elems)
  | Leaf _ => []
  end.

(** Recursive descent in document order: one pair per leaf, the path
    extended by the key or the index at each descent. *)
Fixpoint leaves (n : node) (pth : path) : list entry :=
  match n with
  | PyDict items => flat_map (fun '(k, v) => leaves v (pth ++ [k])) items
  | PyList elems =>
      (fix at_index (i : nat) (l : list node) : list entry :=
         match l with
         | [] => []
         | x :: l' =>
             leaves x (pth ++ [PyInt (Z.of_nat i)]) ++ at_index (S i) l'
         end) 0%nat elems
  | Leaf v => [(pth, v)]
  end.

(** The same descent taking the children of every node last to first:
    the order a last-in-first-out work-list produces. *)
Fixpoint lifo (n : node) (pth : path) : list entry :=
  match n with
  | PyDict items =>
      (fix backwards (l : list (scalar * node)) : list entry :=
         match l with
         | [] => []
         | (k, v) :: l' => backwards l' ++ lifo v (pth ++ [k])
         end) items
  | PyList elems =>
      (fix backwards (i : nat) (l : list node) : list entry :=
         match l with
         | [] => []
         | x :: l' =>
             backwards (S i) l' ++ lifo x (pth ++ [PyInt (Z.of_nat i)])
         end) 0%nat elems
  | Leaf v => [(pth, v)]
  end.

(** Number of leaves (nodes that are neither a mapping nor a sequence). *)
Fixpoint count_leaves (n : node) : nat :=
  match n with
  | PyDict items => list_sum (map (fun '(_, v) => count_leaves v) items)
  | PyList elems => list_sum (map count_leaves elems)
  | Leaf _ => 1
  end.

(** A tree without any leaf: empty containers, however nested. *)
Fixpoint hollow (n : node) : bool :=
  match n with
  | PyDict items => forallb (fun '(_, v) => hollow v) items
  | PyList elems => forallb hollow elems
  | Leaf _ => false
  end.

Definition leaves_of (w : work) : list entry := leaves (fst w) (snd w).
Definition lifo_of (w : work) : list entry := lifo (fst w) (snd w).

(** ** Report rows *)

(** Python truth value of a leaf object. *)
Definition truthy_scalar (v : scalar) : bool :=
  match v with
  | PyNone => false
  | PyBool b => b
  | PyInt z => negb (z =? 0)%Z
  | PyFloat (S754_zero _) => false
  | PyFloat _ => true
  | PyStr s => match s with [] => false | _ => true end
  | PyOther _ _ t => t
  end.

(** Python truth value of a loaded document. *)
Definition truthy (n : node) : bool :=
  match n with
  | PyDict items => match items with [] => false | _ => true end
  | PyList elems => match elems with [] => false | _ => true end
  | Leaf v => truthy_scalar v
  end.

(** [type(value).__name__] *)
Definition type_name (v : scalar) : pystr :=
  match v with
  | PyNone => lit "NoneType"
  | PyBool _ => lit "bool"
  | PyInt _ => lit "int"
  | PyFloat _ => lit "float"
  | PyStr _ => lit "str"
  | PyOther t _ _ => t
  end.

Definition MAX_VALUE_WIDTH : Z := 60.
Definition ELLIPSIS : pystr := lit "...".
Definition ROOT_SENTINEL : pystr := lit "(root)".

(** [x or default] on strings. *)
Definition str_or (s default : pystr) : pystr :=
  match s with [] => default | _ => s end.

(** ** Truncation and rows, over the display-width library *)

Section Display.
(** [wcwidth.wcswidth]: the number of terminal columns a string takes.
    The script calls it on the whole value and on single characters. *)
Variable wcswidth : pystr -> Z.
(** [str(x)] for a [float] (the shortest representation that reads
    back as the same number); not computed here. *)
Variable str_float : spec_float -> pystr.

(** The body of the [for ch in s] loop of [truncate_display], from the
    characters still to come, the output and the width so far. *)
Fixpoint truncate_loop (max_width : Z) (rest out : pystr) (width : Z)
  : pystr :=
  match rest with
  | [] => out
  | ch :: rest' =>
      let w := wcswidth [ch] in
      if (width + w >? max_width - 3)%Z then out ++ ELLIPSIS
      else truncate_loop max_width rest' (out ++ [ch]) (width + w)%Z
  end.

Definition truncate_display (s : pystr) (max_width : Z) : pystr :=
  if (wcswidth s <=? max_width)%Z then s
  else truncate_loop max_width s [] 0%Z.

(** Sum of the widths of the characters taken one at a time. *)
Definition display_width (s : pystr) : Z :=
  fold_right (fun ch acc => (wcswidth [ch] + acc)%Z) 0%Z s.

(** [str(value)] *)
Definition str_value (v : scalar) : pystr :=
  match v with
  | PyNone => lit "None"
  | PyBool true => lit "True"
  | PyBool false => lit "False"
  | PyInt z => str_int z
  | PyFloat f => str_float f
  | PyStr s => s
  | PyOther _ s _ => s
  end.

(** [".".join(str(e) for e in key_path) or "(root)"] *)
Definition key_str (key_path : path) : pystr :=
  str_or (join (lit ".") (map str_value key_path)) ROOT_SENTINEL.

Definition row := list pystr.

(** The rows [tabulate_file] builds from the loaded data, given
    [path.name] and [str(path.relative_to(project_root))]. *)
Definition report_rows (name location : pystr) (data : node) : list row :=
  map (fun '(key_path, value) =>
         [ name; location; key_str key_path;
           truncate_display (str_value value) MAX_VALUE_WIDTH;
           type_name value ])
    (flatten data None).

(** [loaded or {}] in [read_yaml]. *)
Definition or_empty_dict (loaded : node) : node :=
  if truthy loaded then loaded else PyDict [].

End Display.

(** ** Effects: exits, exceptions, standard output *)

(** How a call ends: it returns, it calls [sys.exit(msg)] (the message
    goes to the error stream), or an exception nobody catches leaves it. *)
Inductive outcome (A : Type) : Type :=
| Done (a : A)
| SysExit (msg : pystr)
| Raised (exc : pystr).

Arguments SysExit {A} msg.
Arguments Raised {A} exc.

(** Exit status of the process: [sys.exit] with a string and an uncaught
    exception both give 1. *)
Definition exit_status (A : Type) (o : outcome A) : Z :=
  match o with
  | Done _ => 0
  | SysExit _ => 1
  | Raised _ => 1
  end.

(** What opening a file and handing it to the YAML loader can do: build
    a document ([None] for an empty one), raise a [YAMLError] with its
    diagnostic, or raise something else (the file cannot be opened or
    decoded). *)
Inductive load_result : Type :=
| Loaded (doc : node)
| YAMLError (diagnostic : pystr)
| OtherError (exc : pystr).

(** [fnmatch] on one path component: [*] stands for any run of
    characters, [?] for any one character. *)
Fixpoint fnmatch (pat : pystr) : pystr -> bool :=
  match pat with
  | [] => fun name => match name with [] => true | _ :: _ => false end
  | c :: pat' =>
      if (c =? 42)%N then
        fix star (name : pystr) : bool :=
          fnmatch pat' name
          || match name with [] => false | _ :: name' => star name' end
      else
        fun name =>
          match name with
          | [] => false
          | d :: name' => ((c =? 63)%N || (c =? d)%N) && fnmatch pat' name'
          end
  end.

Definition HEADERS : list pystr :=
  [lit "File"; lit "Location"; lit "Key Path"; lit "Value"; lit "Type"].

Section Script.
Variable wcswidth : pystr -> Z.
Variable str_float : spec_float -> pystr.
(** [tabulate(rows, headers=..., tablefmt="fancy_grid", stralign="left")] *)
Variable tabulate : list (list pystr) -> list pystr -> pystr.

(** What the script uses of [pathlib.Path]. *)
Variable Path : Type.
Variable path_str : Path -> pystr.
Variable path_name : Path -> pystr.
Variable path_ltb : Path -> Path -> bool.
Variable parents : Path -> list Path.
Variable joinpath : Path -> pystr -> Path.
(** [None] when [relative_to] raises [ValueError]. *)
Variable relative_to : Path -> Path -> option Path.

(** The file system the script runs on: the resolved working
    directory, which paths are regular files, the entries lying
    beneath a directory at any depth in the order a recursive scan
    meets them, and what loading a file does. *)
Record filesystem : Type := {
  cwd : Path;
  is_file : Path -> bool;
  scan : Path -> list Path;
  load : Path -> load_result
}.

(** What a run leaves behind: the strings printed, one per [print]
    call, and the files opened, in order. *)
Record console : Type := {
  stdout : list pystr;
  opened : list Path
}.

Definition M (A : Type) : Type := console -> outcome A * console.

Definition ret (A : Type) (a : A) : M A := fun c => (Done a, c).

Definition bind (A B : Type) (m : M A) (k : A -> M B) : M B :=
  fun c =>
    match m c with
    | (Done a, c') => k a c'
    | (SysExit msg, c') => (SysExit msg, c')
    | (Raised e, c') => (Raised e, c')
    end.

Notation "x <- m ;; k" := (bind m (fun x => k))
  (at level 61, m at next level, right associativity).
Notation "m ;;; k" := (bind m (fun _ => k))
  (at level 61, right associativity).

Definition sys_exit {A : Type} (msg : pystr) : M A :=
  fun c => (SysExit msg, c).

Definition raise {A : Type} (exc : pystr) : M A :=
  fun c => (Raised exc, c).

Definition print (s : pystr) : M unit :=
  fun c => (Done tt, {| stdout := stdout c ++ [s]; opened := opened c |}).

Definition open_and_load (fs : filesystem) (p : Path) : M load_result :=
  fun c =>
    (Done (load fs p), {| stdout := stdout c; opened := opened c ++ [p] |}).

Fixpoint for_each (A : Type) (xs : list A) (body : A -> M unit) : M unit :=
  match xs with
  | [] => ret tt
  | x :: xs' => body x ;;; for_each xs' body
  end.

(** [sorted(paths)]: a stable sort that only asks [<]. *)
Fixpoint insert (x : Path) (l : list Path) : list Path :=
  match l with
  | [] => [x]
  | y :: l' => if path_ltb y x then y :: insert x l' else x :: l
  end.

Definition sorted (l : list Path) : list Path := fold_right insert [] l.

(** [root.rglob(pattern)] *)
Definition rglob (fs : filesystem) (root : Path) (pattern : pystr)
  : list Path :=
  filter (fun p => fnmatch pattern (path_name p)) (scan fs root).

Definition find_project_root (fs : filesystem) (marker : pystr) : M Path :=
  let start := cwd fs in
  match find (fun d => is_file fs (joinpath d marker))
             (start :: parents start) with
  | Some d => ret d
  | None =>
      sys_exit (lit "Error: marker '" ++ marker ++ lit "' not found from "
                ++ path_str start ++ lit " upward")
  end.

Definition find_yaml_files (fs : filesystem) (root : Path) : list Path :=
  rglob fs root (lit "*.yaml") ++ rglob fs root (lit "*.yml").

Definition parse_error_message (p : Path) (diagnostic : pystr) : pystr :=
  lit "Error parsing YAML at " ++ path_str p ++ lit ": " ++ diagnostic.

Definition read_yaml (fs : filesystem) (p : Path) : M node :=
  r <- open_and_load fs p ;;
  match r with
  | Loaded doc => ret (or_empty_dict doc)
  | YAMLError e => sys_exit (parse_error_message p e)
  | OtherError exc => raise exc
  end.

Definition report_header (location : pystr) : pystr :=
  [10%N] ++ lit "=== " ++ location ++ lit " ===".

Definition tabulate_file (fs : filesystem) (p project_root : Path)
  : M unit :=
  data <- read_yaml fs p ;;
  match relative_to p project_root with
  | None => raise (lit "ValueError")
  | Some rel =>
      let rows :=
        report_rows wcswidth str_float (path_name p) (path_str rel) data in
      print (report_header (path_str rel)) ;;;
      print (tabulate rows HEADERS)
  end.

Definition main (fs : filesystem) : M unit :=
  root <- find_project_root fs (lit ".root") ;;
  let files := sorted (find_yaml_files fs root) in
  match files with
  | [] => sys_exit (lit "No YAML files found under project root.")
  | _ :: _ => for_each files (fun yf => tabulate_file fs yf root)
  end.

Definition fresh : console := {| stdout := []; opened := [] |}.

(** A file that loads and lies beneath the project root. *)
Definition reportable (fs : filesystem) (project_root p : Path) : bool :=
  match load fs p, relative_to p project_root with
  | Loaded _, Some _ => true
  | _, _ => false
  end.

(** The two strings [tabulate_file] prints for such a file. *)
Definition file_report (fs : filesystem) (project_root p : Path)
  : list pystr :=
  match load fs p, relative_to p project_root with
  | Loaded doc, Some rel =>
      [ report_header (path_str rel);
        tabulate
          (report_rows wcswidth str_float (path_name p) (path_str rel)
             (or_empty_dict doc))
          HEADERS ]
  | _, _ => []
  end.

End Script.

(** ** A concrete instance of the libraries *)

(** Lexicographic order on lists, from a strict order on the elements. *)
Fixpoint lex_ltb (A : Type) (ltb : A -> A -> bool) (l1 l2 : list A) : bool :=
  match l1, l2 with
  | _, [] => false
  | [], _ :: _ => true
  | x :: l1', y :: l2' =>
      ltb x y || (negb (ltb y x) && lex_ltb ltb l1' l2')
  end.

(** Strings compare by code point. *)
Definition str_ltb : pystr -> pystr -> bool := lex_ltb N.ltb.

Definition in_range (lo hi ch : N) : bool := ((lo <=? ch) && (ch <=? hi))%N.

(** A width table in the shape of wcwidth's: combining marks and
    zero-width characters take no column, East Asian wide characters
    and emoji take two, everything else one. *)
Definition cell_width (ch : char) : Z :=
  if in_range 0x0300 0x036F ch || in_range 0x200B 0x200F ch then 0
  else if in_range 0x1100 0x115F ch || in_range 0x2E80 0xA4CF ch
          || in_range 0xAC00 0xD7A3 ch || in_range 0xF900 0xFAFF ch
          || in_range 0xFE30 0xFE6F ch || in_range 0xFF00 0xFF60 ch
          || in_range 0xFFE0 0xFFE6 ch || in_range 0x1F300 0x1F64F ch
          || in_range 0x1F680 0x1F6FF ch || in_range 0x1F900 0x1F9FF ch
          || in_range 0x20000 0x3FFFD ch then 2
  else 1.

(** The width of a string as the sum of the widths of its characters. *)
Definition cells (s : pystr) : Z :=
  fold_right (fun ch acc => (cell_width ch + acc)%Z) 0%Z s.

(** [str] of the floats that have a fixed spelling; the digits of a
    finite non-zero float are not computed. *)
Definition str_float_special (f : spec_float) : pystr :=
  match f with
  | S754_zero false => lit "0.0"
  | S754_zero true => lit "-0.0"
  | S754_infinity false => lit "inf"
  | S754_infinity true => lit "-inf"
  | S754_nan => lit "nan"
  | S754_finite _ _ _ => lit "<float>"
  end.

(** A table renderer that keeps the cells apart; the borders of
    [fancy_grid] are not drawn. *)
Definition plain_table (rows : list (list pystr)) (headers : list pystr)
  : pystr :=
  join [10%N] (map (join (lit " | ")) (headers :: rows)).

(** POSIX paths as pathlib's [parts]: the components, an absolute path
    starting with the component ["/"]. *)
Module Posix.
Definition Path := list pystr.

Definition is_absolute (p : Path) : bool :=
  match p with
  | first :: _ => str_eqb first (lit "/")
  | [] => false
  end.

Definition path_str (p : Path) : pystr :=
  match p with
  | [] => lit "."
  | first :: rest =>
      if str_eqb first (lit "/") then first ++ join (lit "/") rest
      else join (lit "/") p
  end.

Definition path_name (p : Path) : pystr :=
  if is_absolute p then last (tl p) [] else last p [].

Definition path_ltb : Path -> Path -> bool := lex_ltb str_ltb.

(** The proper prefixes, longest first. *)
Fixpoint prefixes (p : Path) : list Path :=
  match p with
  | [] => []
  | x :: p' => map (cons x) (prefixes p') ++ [[]]
  end.

Definition parents (p : Path) : list Path :=
  if is_absolute p then removelast (prefixes p) else prefixes p.

Definition joinpath (d : Path) (name : pystr) : Path := d ++ [name].

Fixpoint relative_to (p root : Path) : option Path :=
  match root, p with
  | [], _ => Some p
  | r :: root', x :: p' =>
      if str_eqb r x then relative_to p' root' else None
  | _ :: _, [] => None
  end.
End Posix.

(** The project of the end-to-end example: [/proj] holds the marker
    [.root] and the single file [app.yaml]. *)
Definition proj : Posix.Path := [lit "/"; lit "proj"].
Definition app_yaml : Posix.Path := [lit "/"; lit "proj"; lit "app.yaml"].

Definition rocket_service : pystr := 0x1F680%N :: lit "rocket-service".

Definition app_doc : node :=
  PyDict [ (PyStr (lit "name"), Leaf (PyStr rocket_service));
           (PyStr (lit "replicas"), Leaf (PyInt 3));
           (PyStr (lit "tags"),
            PyList [Leaf (PyStr (lit "a")); Leaf (PyStr (lit "b"))]) ].

Definition path_eqb (p q : Posix.Path) : bool :=
  if list_eq_dec (list_eq_dec N.eq_dec) p q then true else false.

(** The project, with what loading [app.yaml] does left open. *)
Definition project_fs (app : load_result) : filesystem Posix.Path :=
  {| cwd := proj;
     is_file := fun p =>
       path_eqb p (proj ++ [lit ".root"]) || path_eqb p app_yaml;
     scan := fun d =>
       if path_eqb d proj then [proj ++ [lit ".root"]; app_yaml] else [];
     load := fun p =>
       if path_eqb p app_yaml then app
       else OtherError (lit "FileNotFoundError") |}.

Definition example_fs : filesystem Posix.Path := project_fs (Loaded app_doc).

(** A project with three documents, the second one in sorted order
    malformed; the run starts in the sub-directory [conf]. *)
Definition a_yaml : Posix.Path := [lit "/"; lit "proj"; lit "a.yaml"].
Definition b_yml : Posix.Path := [lit "/"; lit "proj"; lit "conf"; lit "b.yml"].
Definition c_yaml : Posix.Path := [lit "/"; lit "proj"; lit "conf"; lit "c.yaml"].

Definition broken_fs : filesystem Posix.Path :=
  {| cwd := proj ++ [lit "conf"];
     is_file := fun p =>
       path_eqb p (proj ++ [lit ".root"]) || path_eqb p a_yaml
       || path_eqb p b_yml || path_eqb p c_yaml;
     scan := fun d =>
       if path_eqb d proj
       then [c_yaml; proj ++ [lit "conf"]; b_yml; proj ++ [lit ".root"];
             a_yaml]
       else [];
     load := fun p =>
       if path_eqb p a_yaml then Loaded (Leaf (PyStr (lit "hello")))
       else if path_eqb p b_yml
       then YAMLError (lit "mapping values are not allowed here")
       else if path_eqb p c_yaml then Loaded (PyList [Leaf (PyInt 1)])
       else OtherError (lit "FileNotFoundError") |}.

Definition posix_main (fs : filesystem Posix.Path)
  : outcome unit * console Posix.Path :=
  main cells str_float_special plain_table Posix.path_str Posix.path_name
    Posix.path_ltb Posix.parents Posix.joinpath Posix.relative_to fs
    (fresh Posix.Path).

(** A value five times as wide as the end-to-end example's, 80 columns. *)
Definition long_value : pystr := concat (repeat rocket_service 5).

(** The pair [e] with [p] put in front of its key path. *)
Definition under (p : path) (e : entry) : entry := (p ++ fst e, snd e).

(** Every mapping of the tree has pairwise distinct keys, as a [dict]
    has. *)
Fixpoint unique_keys (n : node) : Prop :=
  match n with
  | PyDict items =>
      NoDup (map fst items)
      /\ (fix all (l : list (scalar * node)) : Prop :=
            match l with
            | [] => True
            | (_, v) :: l' => unique_keys v /\ all l'
            end) items
  | PyList elems =>
      (fix all (l : list node) : Prop :=
         match l with
         | [] => True
         | x :: l' => unique_keys x /\ all l'
         end) elems
  | Leaf _ => True
  end.

(** A directory tree without any marker. *)
Definition bare_fs : filesystem Posix.Path :=
  {| cwd := [lit "/"; lit "home"; lit "work"];
     is_file := fun _ => false;
     scan := fun _ => [];
     load := fun _ => OtherError (lit "FileNotFoundError") |}.

(** A project that holds its marker and no YAML file. *)
Definition empty_fs : filesystem Posix.Path :=
  {| cwd := proj;
     is_file := fun p =>
       path_eqb p (proj ++ [lit ".root"])
       || path_eqb p (proj ++ [lit "notes.txt"]);
     scan := fun d =>
       if path_eqb d proj
       then [proj ++ [lit ".root"]; proj ++ [lit "notes.txt"]]
       else [];
     load := fun _ => OtherError (lit "FileNotFoundError") |}.

(** The three-document project with the second document unreadable
    instead of malformed. *)
Definition unreadable_fs : filesystem Posix.Path :=
  {| cwd := proj;
     is_file := is_file broken_fs;
     scan := scan broken_fs;
     load := fun p =>
       if path_eqb p b_yml then OtherError (lit "PermissionError")
       else load broken_fs p |}.

(** ** The wcwidth package *)

Definition ZWJ : char := 0x200D%N.
Definition VS16 : char := 0xFE0F%N.

(** C0 and C1 control characters and DEL: the package reports -1 for
    them. *)
Definition is_control (ch : char) : bool :=
  in_range 1 31 ch || in_range 0x7F 0x9F ch.

(** [wcwidth.wcwidth(ch)]: -1 for a control character, 0 for the null
    character, the variation selectors and the other zero-width
    characters, 2 for wide characters, 1 otherwise.  The table is the
    part of the package's that the examples below need, with the same
    default. *)
Definition wcwidth_lib (ch : char) : Z :=
  if (ch =? 0)%N then 0
  else if is_control ch then -1
  else if in_range 0xFE00 0xFE0F ch then 0
  else cell_width ch.

(** Characters that the variation selector 16 turns from narrow to
    wide (a part of the package's table). *)
Definition vs16_narrow_to_wide (ch : char) : bool :=
  in_range 0x2600 0x2604 ch || in_range 0x2638 0x263A ch
  || in_range 0x2763 0x2764 ch.

(** The loop of [wcwidth.wcswidth]: a zero-width joiner and the
    character after it are not measured; a variation selector 16 after
    a measured character adds one column when that character is
    narrow and becomes wide; a character of negative width makes the
    whole result that width. *)
Fixpoint wcswidth_scan (s : pystr) (width : Z) (last_measured : option char)
  : Z :=
  match s with
  | [] => width
  | ch :: rest =>
      if (ch =? ZWJ)%N then
        match rest with
        | [] => width
        | _ :: rest' => wcswidth_scan rest' width last_measured
        end
      else
        match (ch =? VS16)%N, last_measured with
        | true, Some l =>
            wcswidth_scan rest
              (width + (if vs16_narrow_to_wide l then 1 else 0))%Z None
        | _, _ =>
            let w := wcwidth_lib ch in
            if (w <? 0)%Z then w
            else wcswidth_scan rest (width + w)%Z
                   (if (0 <? w)%Z then Some ch else last_measured)
        end
  end.

(** [wcwidth.wcswidth(s)] *)
Definition wcswidth_lib (s : pystr) : Z := wcswidth_scan s 0%Z None.

(** A value of 99 letters and a final newline. *)
Definition newline_value : pystr := repeat 97%N 99 ++ [10%N].

(** Two smiling faces, each with a variation selector 16, then 54
    letters and two rockets. *)
Definition smiley_value : pystr :=
  [0x263A%N; VS16; 0x263A%N; VS16] ++ repeat 97%N 54
  ++ [0x1F680%N; 0x1F680%N].

(** A project with documents in the directories [conf] and [conf.d]
    and one at the top. *)
Definition conf_b : Posix.Path := proj ++ [lit "conf"; lit "b.yaml"].
Definition confd_a : Posix.Path := proj ++ [lit "conf.d"; lit "a.yaml"].
Definition top_yml : Posix.Path := proj ++ [lit "top.yml"].

Definition layout_fs : filesystem Posix.Path :=
  {| cwd := proj;
     is_file := fun p =>
       path_eqb p (proj ++ [lit ".root"]) || path_eqb p conf_b
       || path_eqb p confd_a || path_eqb p top_yml;
     scan := fun d =>
       if path_eqb d proj
       then [top_yml; proj ++ [lit "conf.d"]; confd_a; proj ++ [lit "conf"];
             conf_b; proj ++ [lit ".root"]]
       else [];
     load := fun p =>
       if path_eqb p conf_b then Loaded (Leaf (PyStr (lit "b")))
       else if path_eqb p confd_a then Loaded (Leaf (PyStr (lit "a")))
       else if path_eqb p top_yml then Loaded (PyList [Leaf (PyInt 1)])
       else OtherError (lit "FileNotFoundError") |}.

(** A project whose only entry named like a document is a directory. *)
Definition old_yaml : Posix.Path := proj ++ [lit "old.yaml"].

Definition yaml_dir_fs : filesystem Posix.Path :=
  {| cwd := proj;
     is_file := fun p => path_eqb p (proj ++ [lit ".root"]);
     scan := fun d =>
       if path_eqb d proj then [old_yaml; proj ++ [lit ".root"]] else [];
     load := fun p =>
       if path_eqb p old_yaml then OtherError (lit "IsADirectoryError")
       else OtherError (lit "FileNotFoundError") |}.

(** * Properties *)

(** ** The work-list *)

Lemma pop_nil (A : Type) : pop (@nil A) = None.
Proof. reflexivity. Qed.

Lemma pop_snoc (A : Type) (stack : list A) (x : A) :
  pop (stack ++ [x]) = Some (stack, x).
Proof.
  unfold pop. rewrite rev_app_distr. simpl. now rewrite rev_involutive.
Qed.

Lemma pop_inv (A : Type) (stack : list A) :
  (stack = [] /\ pop stack = None)
  \/ exists stack' x, stack = stack' ++ [x] /\ pop stack = Some (stack', x).
Proof.
  destruct stack as [| a l] using rev_ind.
  - left. split; reflexivity.
  - right. exists l, a. split; [reflexivity | apply pop_snoc].
Qed.

Lemma push_items_app (stack : list work) (pth : path) items :
  push_items stack pth items = stack ++ children (PyDict items) pth.
Proof.
  unfold push_items. revert stack.
  induction items as [| [k v] items IH]; intros stack; simpl.
  - now rewrite app_nil_r.
  - rewrite IH. now rewrite <- app_assoc.
Qed.

Lemma fold_left_snoc_map (A B : Type) (f : A -> B) (l : list A) (acc : list B) :
  fold_left (fun st a => st ++ [f a]) l acc = acc ++ map f l.
Proof.
  revert acc. induction l as [| a l IH]; intros acc; simpl.
  - now rewrite app_nil_r.
  - rewrite IH. now rewrite <- app_assoc.
Qed.

Lemma push_elems_app (stack : list work) (pth : path) elems :
  push_elems stack pth elems = stack ++ children (PyList elems) pth.
Proof.
  unfold push_elems, children.
  etransitivity; [| apply fold_left_snoc_map].
  generalize (enumerate elems) as en. intros en. revert stack.
  induction en as [| [i item] en IH]; intros stack; simpl;
    [reflexivity | apply IH].
Qed.

(** *** The traversals through [children] *)

Lemma at_index_enumerate (f : nat -> node -> list entry) (l : list node) :
  forall i,
    (fix at_index (i : nat) (l : list node) : list entry :=
       match l with
       | [] => []
       | x :: l' => f i x ++ at_index (S i) l'
       end) i l
    = flat_map (fun '(j, x) => f j x) (combine (seq i (length l)) l).
Proof.
  induction l as [| x l IH]; intros i; simpl; [reflexivity |].
  now rewrite IH.
Qed.

Lemma backwards_enumerate (f : nat -> node -> list entry) (l : list node) :
  forall i,
    (fix backwards (i : nat) (l : list node) : list entry :=
       match l with
       | [] => []
       | x :: l' => backwards (S i) l' ++ f i x
       end) i l
    = flat_map (fun '(j, x) => f j x) (rev (combine (seq i (length l)) l)).
Proof.
  induction l as [| x l IH]; intros i; simpl; [reflexivity |].
  rewrite IH, flat_map_app. simpl. now rewrite app_nil_r.
Qed.

Lemma leaves_children (n : node) (pth : path) :
  leaves n pth =
  match n with
  | Leaf v => [(pth, v)]
  | _ => flat_map leaves_of (children n pth)
  end.
Proof.
  destruct n as [items | elems | v]; simpl; [| | reflexivity].
  - rewrite flat_map_concat_map, flat_map_concat_map, map_map.
    f_equal. apply map_ext. intros [k v]. reflexivity.
  - rewrite (at_index_enumerate
               (fun i x => leaves x (pth ++ [PyInt (Z.of_nat i)]))).
    unfold enumerate.
    rewrite flat_map_concat_map, flat_map_concat_map, map_map.
    f_equal. apply map_ext. intros [j x]. reflexivity.
Qed.

Lemma lifo_children (n : node) (pth : path) :
  lifo n pth =
  match n with
  | Leaf v => [(pth, v)]
  | _ => flat_map lifo_of (rev (children n pth))
  end.
Proof.
  destruct n as [items | elems | v]; simpl; [| | reflexivity].
  - induction items as [| [k v] items IH]; simpl; [reflexivity |].
    rewrite IH, flat_map_app. simpl. now rewrite app_nil_r.
  - rewrite (backwards_enumerate
               (fun i x => lifo x (pth ++ [PyInt (Z.of_nat i)]))).
    unfold enumerate. rewrite <- map_rev.
    rewrite flat_map_concat_map, flat_map_concat_map, map_map.
    f_equal. apply map_ext. intros [j x]. reflexivity.
Qed.

Lemma stack_size_app (s t : list work) :
  stack_size (s ++ t) = stack_size s + stack_size t.
Proof. unfold stack_size. now rewrite map_app, list_sum_app. Qed.

Lemma list_sum_combine_seq (f : node -> nat) (l : list node) :
  forall i,
    list_sum (map (fun w : nat * node => f (snd w))
                (combine (seq i (length l)) l))
    = list_sum (map f l).
Proof.
  induction l as [| x l IH]; intros i; simpl; [reflexivity |].
  now rewrite IH.
Qed.

Lemma node_size_children (n : node) (pth : path) :
  node_size n = S (stack_size (children n pth)).
Proof.
  destruct n as [items | elems | v]; simpl; unfold stack_size.
  - f_equal. rewrite map_map. f_equal. apply map_ext. now intros [k v].
  - f_equal. rewrite map_map. unfold enumerate.
    rewrite <- (list_sum_combine_seq node_size elems 0). f_equal.
    apply map_ext. now intros [j x].
  - reflexivity.
Qed.

(** With more iterations allowed than there are nodes below the stack,
    the loop empties the stack, and yields the pairs of its items top
    first, each in last-in-first-out order. *)
Lemma flatten_loop_lifo (fuel : nat) :
  forall stack,
    stack_size stack < fuel ->
    flatten_loop fuel stack = Some (flat_map lifo_of (rev stack)).
Proof.
  induction fuel as [| fuel IH]; intros stack Hsz; [lia |].
  simpl. destruct (pop_inv stack) as [[-> ->] | (stack' & [nd pth] & -> & ->)].
  - reflexivity.
  - rewrite stack_size_app in Hsz. unfold stack_size at 2 in Hsz.
    simpl in Hsz. rewrite (node_size_children nd pth) in Hsz.
    rewrite rev_app_distr. simpl. unfold lifo_of at 1. simpl.
    rewrite (lifo_children nd pth).
    destruct nd as [items | elems | v].
    + rewrite push_items_app, IH by (rewrite stack_size_app; lia).
      now rewrite rev_app_distr, flat_map_app.
    + rewrite push_elems_app, IH by (rewrite stack_size_app; lia).
      now rewrite rev_app_distr, flat_map_app.
    + rewrite IH by lia. reflexivity.
Qed.

Lemma flatten_loop_total (obj : node) (pth : path) (fuel : nat) :
  node_size obj < fuel ->
  flatten_loop fuel [(obj, pth)] = Some (lifo obj pth).
Proof.
  intros H. rewrite flatten_loop_lifo.
  - simpl. unfold lifo_of. simpl. now rewrite app_nil_r.
  - unfold stack_size. simpl. lia.
Qed.

Lemma flatten_lifo (obj : node) (p : option path) :
  flatten obj p = lifo obj (path_or_empty p).
Proof.
  unfold flatten. rewrite flatten_loop_total by lia. reflexivity.
Qed.

(** *** Last-in-first-out order against document order *)

Lemma children_sub (P : node -> Prop) (n : node) (pth : path) :
  match n with
  | PyDict items => Forall (fun kv => P (snd kv)) items
  | PyList elems => Forall P elems
  | Leaf _ => True
  end ->
  Forall (fun w => P (fst w)) (children n pth).
Proof.
  destruct n as [items | elems | v]; simpl; intros H.
  - rewrite Forall_map. eapply Forall_impl; [| exact H]. now intros [k v].
  - rewrite Forall_map. apply Forall_forall. intros [j x] Hin. simpl.
    rewrite Forall_forall in H. apply H.
    unfold enumerate in Hin. eapply in_combine_r; eauto.
  - constructor.
Qed.

Lemma flat_map_pointwise_perm (A B : Type) (f g : A -> list B) (l : list A) :
  Forall (fun a => Permutation (f a) (g a)) l ->
  Permutation (flat_map f l) (flat_map g l).
Proof.
  induction 1 as [| a l Ha _ IH]; simpl; [constructor |].
  now apply Permutation_app.
Qed.

Lemma lifo_perm_leaves (n : node) :
  forall pth, Permutation (lifo n pth) (leaves n pth).
Proof.
  induction n as [items IH | elems IH | v] using node_rect'; intros pth;
    [| | reflexivity];
    rewrite lifo_children, leaves_children;
    (etransitivity;
     [ apply Permutation_flat_map, Permutation_sym, Permutation_rev |]);
    apply flat_map_pointwise_perm;
    (eapply Forall_impl;
     [| apply (children_sub (fun c => forall q,
                                 Permutation (lifo c q) (leaves c q)));
        exact IH]);
    intros [c q] Hc; apply Hc.
Qed.

Lemma length_flat_map_sum (A B : Type) (f : A -> list B) (l : list A) :
  length (flat_map f l) = list_sum (map (fun a => length (f a)) l).
Proof.
  induction l as [| a l IH]; simpl; [reflexivity |].
  now rewrite length_app, IH.
Qed.

Lemma count_leaves_children (n : node) (pth : path) :
  count_leaves n =
  match n with
  | Leaf _ => 1
  | _ => list_sum (map (fun w => count_leaves (fst w)) (children n pth))
  end.
Proof.
  destruct n as [items | elems | v]; simpl; [| | reflexivity].
  - rewrite map_map. f_equal. apply map_ext. now intros [k v].
  - rewrite map_map. unfold enumerate.
    rewrite <- (list_sum_combine_seq count_leaves elems 0). f_equal.
    apply map_ext. now intros [j x].
Qed.

Lemma length_leaves (n : node) :
  forall pth, length (leaves n pth) = count_leaves n.
Proof.
  induction n as [items IH | elems IH | v] using node_rect'; intros pth;
    [| | reflexivity];
    rewrite leaves_children, (count_leaves_children _ pth),
      length_flat_map_sum;
    f_equal; apply map_ext_Forall;
    (eapply Forall_impl;
     [| apply (children_sub (fun c => forall q,
                                 length (leaves c q) = count_leaves c));
        exact IH]);
    intros [c q] Hc; apply Hc.
Qed.

Lemma hollow_count (n : node) : hollow n = true -> count_leaves n = 0.
Proof.
  induction n as [items IH | elems IH | v] using node_rect'; simpl;
    [| | discriminate].
  - induction IH as [| [k v] items Hv _ IHitems]; simpl; [reflexivity |].
    intros H. apply andb_true_iff in H as [H1 H2].
    simpl in Hv. rewrite (Hv H1). now apply IHitems.
  - induction IH as [| x elems Hx _ IHelems]; simpl; [reflexivity |].
    intros H. apply andb_true_iff in H as [H1 H2].
    rewrite (Hx H1). now apply IHelems.
Qed.

(** [C1] For every document tree, the pairs [flatten] yields are, up to
    their order, the pairs of a recursive descent that visits every
    mapping entry by key and every sequence element by index: one pair
    per leaf, none left out and none repeated, so their number is the
    number of leaves. *)
Theorem flatten_complete (obj : node) :
  Permutation (flatten obj None) (leaves obj [])
  /\ length (flatten obj None) = count_leaves obj.
Proof.
  rewrite flatten_lifo. simpl.
  pose proof (lifo_perm_leaves obj []) as Hp. split; [exact Hp |].
  rewrite (Permutation_length Hp). apply length_leaves.
Qed.

(** [C2] A document tree that is a single scalar flattens to exactly
    one pair, whose key path is empty; the empty key path is rendered
    as [(root)], so the report of such a tree is one row with that key. *)
Theorem scalar_root_entry (wcswidth : pystr -> Z)
    (str_float : spec_float -> pystr) (v : scalar) (name location : pystr) :
  flatten (Leaf v) None = [([], v)]
  /\ key_str str_float [] = lit "(root)"
  /\ report_rows wcswidth str_float name location (Leaf v)
     = [[ name; location; lit "(root)";
          truncate_display wcswidth (str_value str_float v) MAX_VALUE_WIDTH;
          type_name v ]].
Proof. repeat split. Qed.

(** [C9] The work-list loop of [flatten] stops on every document tree,
    whatever its depth: one more iteration than the tree has nodes
    empties the stack, allowing more changes nothing, and the pairs
    yielded form a finite list.  Empty mappings and empty sequences,
    alone or nested in one another, yield nothing. *)
Theorem flatten_terminates (obj : node) (p : option path) :
  (forall fuel,
      node_size obj < fuel ->
      flatten_loop fuel [(obj, path_or_empty p)] = Some (flatten obj p))
  /\ flatten (PyDict []) p = []
  /\ flatten (PyList []) p = []
  /\ (hollow obj = true -> flatten obj p = []).
Proof.
  split; [| split; [| split]]; try reflexivity.
  - intros fuel H. rewrite flatten_lifo. now apply flatten_loop_total.
  - intros H. apply length_zero_iff_nil.
    rewrite flatten_lifo, (Permutation_length (lifo_perm_leaves _ _)).
    rewrite length_leaves. now apply hollow_count.
Qed.

Lemma flatten_terminates_witness :
  flatten_loop 100 [(app_doc, [])] = Some (flatten app_doc None)
  /\ flatten (PyDict [(PyStr (lit "a"), PyDict []);
                      (PyStr (lit "b"), PyList [PyList []; PyDict []])])
       None = [].
Proof.
  split.
  - apply (proj1 (flatten_terminates app_doc None) 100%nat).
    vm_compute. lia.
  - apply (proj2 (proj2 (proj2 (flatten_terminates _ None)))).
    reflexivity.
Defined.

(** ** Strings *)

Lemma str_eqb_eq (s t : pystr) : str_eqb s t = true <-> s = t.
Proof.
  unfold str_eqb. destruct (list_eq_dec N.eq_dec s t); split;
    congruence.
Qed.

Lemma endswith_app (pre suffix : pystr) : endswith (pre ++ suffix) suffix = true.
Proof.
  unfold endswith. rewrite length_app. apply andb_true_iff. split.
  - apply Nat.leb_le. lia.
  - apply str_eqb_eq.
    replace (length pre + length suffix - length suffix) with (length pre)
      by lia.
    rewrite skipn_app, skipn_all, Nat.sub_diag. reflexivity.
Qed.

Lemma endswith_inv (s suffix : pystr) :
  endswith s suffix = true -> exists pre, s = pre ++ suffix.
Proof.
  unfold endswith. intros H. apply andb_true_iff in H as [_ H].
  apply str_eqb_eq in H.
  exists (firstn (length s - length suffix) s).
  transitivity (firstn (length s - length suffix) s
                ++ skipn (length s - length suffix) s).
  - symmetry. apply firstn_skipn.
  - now rewrite H.
Qed.

(** ** Truncation *)

Section TruncateFacts.
Variable wcswidth : pystr -> Z.

Local Abbreviation dw := (display_width wcswidth).
Local Abbreviation trunc := (truncate_display wcswidth).
Local Open Scope Z_scope.

Lemma display_width_app (s t : pystr) : dw (s ++ t) = dw s + dw t.
Proof.
  induction s as [| ch s IH]; simpl; [reflexivity |]. rewrite IH. lia.
Qed.

Lemma display_width_ellipsis :
  wcswidth (lit ".") = 1 -> dw ELLIPSIS = 3.
Proof.
  intros H.
  change (wcswidth (lit ".")
          + (wcswidth (lit ".") + (wcswidth (lit ".") + 0)) = 3).
  rewrite H. reflexivity.
Qed.

(** The loop either stops at a character [ch] that would take the
    width past [max_width - 3], having kept the characters [pre]
    before it, or it keeps every character. *)
Lemma truncate_loop_cases (b : Z) (rest : pystr) :
  forall out width,
    (exists pre ch post,
        rest = pre ++ ch :: post
        /\ truncate_loop wcswidth b rest out width = out ++ pre ++ ELLIPSIS
        /\ width + dw pre + wcswidth [ch] > b - 3
        /\ (pre = [] \/ width + dw pre <= b - 3))
    \/ (truncate_loop wcswidth b rest out width = out ++ rest
        /\ (rest = [] \/ width + dw rest <= b - 3)).
Proof.
  induction rest as [| ch rest IH]; intros out width.
  - right. simpl. rewrite app_nil_r. auto.
  - simpl. destruct (width + wcswidth [ch] >? b - 3) eqn:E.
    + left. exists [], ch, rest. simpl. repeat split; auto.
      apply Z.gtb_lt in E. lia.
    + assert (Hle : width + wcswidth [ch] <= b - 3).
      { destruct (Z.gtb_spec (width + wcswidth [ch]) (b - 3)); 
          [discriminate | lia]. }
      destruct (IH (out ++ [ch]) (width + wcswidth [ch]))
        as [(pre & c & post & -> & Hr & Hgt & Hpre) | [Hr Hrest]].
      * left. exists (ch :: pre), c, post. simpl.
        rewrite Hr, <- app_assoc. simpl.
        repeat split; [lia |]. right. destruct Hpre as [-> | Hpre];
          simpl; lia.
      * right. rewrite Hr, <- app_assoc. simpl. split; [reflexivity |].
        right. destruct Hrest as [-> | Hrest]; simpl; lia.
Qed.

(** What a string that does not fit is turned into, when the width the
    library gives it is the sum of the widths of its characters. *)
Lemma truncate_clipped (s : pystr) (b : Z) :
  wcswidth s = dw s ->
  dw s > b ->
  (s = [] /\ trunc s b = [])
  \/ exists pre, trunc s b = pre ++ ELLIPSIS /\ (pre = [] \/ dw pre <= b - 3).
Proof.
  intros Hs Hgt. unfold truncate_display.
  destruct (Z.leb_spec (wcswidth s) b) as [Hle | _]; [lia |].
  destruct (truncate_loop_cases b s [] 0)
    as [(pre & c & post & _ & Hr & _ & Hpre) | [Hr Hrest]].
  - right. exists pre. rewrite Hr. simpl. split; [reflexivity |].
    destruct Hpre; [now left | right; lia].
  - destruct Hrest as [-> | Hrest]; [left; auto | lia].
Qed.

Lemma truncate_fits (s : pystr) (b : Z) :
  wcswidth s <= b -> trunc s b = s.
Proof.
  intros H. unfold truncate_display.
  destruct (Z.leb_spec (wcswidth s) b); [reflexivity | lia].
Qed.

End TruncateFacts.

(** The concrete width table is additive and gives the full stop one
    column. *)
Lemma cells_sum (s : pystr) : cells s = display_width cells s.
Proof.
  induction s as [| ch s IH]; simpl; [reflexivity |].
  unfold cells in *. simpl. rewrite <- IH. lia.
Qed.

Lemma cells_dot : cells (lit ".") = 1%Z.
Proof. reflexivity. Qed.

(** A string that does not fit and whose first character alone is wider
    than the budget less three is cut down to the bare ellipsis, at any
    budget; and the result is empty only for the empty string. *)
Lemma truncate_first_too_wide (wcswidth : pystr -> Z) (s : pystr) (b : Z) :
  (forall ch rest,
      s = ch :: rest ->
      (wcswidth s > b)%Z ->
      (wcswidth [ch] > b - 3)%Z ->
      truncate_display wcswidth s b = ELLIPSIS)
  /\ (forall ch rest,
         s = ch :: rest ->
         (wcswidth s > b)%Z ->
         (b < 3)%Z ->
         (0 <= wcswidth [ch])%Z ->
         truncate_display wcswidth s b = ELLIPSIS)
  /\ (truncate_display wcswidth s b = [] -> s = []).
Proof.
  assert (Hfirst : forall ch rest,
             s = ch :: rest ->
             (wcswidth s > b)%Z ->
             (wcswidth [ch] > b - 3)%Z ->
             truncate_display wcswidth s b = ELLIPSIS).
  { intros ch rest -> Hno Hch. unfold truncate_display.
    destruct (Z.leb_spec (wcswidth (ch :: rest)) b) as [| _]; [lia |].
    simpl. destruct (Z.gtb_spec (wcswidth [ch]) (b - 3)) as [| Hle];
      [reflexivity | lia]. }
  split; [exact Hfirst | split].
  - intros ch rest Hs Hno Hb Hch. apply (Hfirst ch rest Hs Hno). lia.
  - unfold truncate_display.
    destruct (wcswidth s <=? b)%Z; [auto |].
    destruct (truncate_loop_cases wcswidth b s [] 0%Z)
      as [(pre & c & post & _ & -> & _) | [-> _]]; [| auto].
    simpl. intros H. apply app_eq_nil in H as [_ H]. discriminate H.
Qed.

Lemma truncate_first_too_wide_witness :
  truncate_display cells (lit "abcd") 2 = ELLIPSIS.
Proof.
  apply (proj1 (truncate_first_too_wide cells (lit "abcd") 2)
           97%N (lit "bcd")); reflexivity.
Defined.

(** [C6] With a budget below three, a string that does not fit should
    come back empty.  The script does not do that: the four-column
    string [abcd] does not fit a budget of two, and [truncate_display]
    returns the ellipsis, which is not empty and, at three columns, is
    wider than the budget its docstring promises to keep. *)
Theorem truncate_small_budget_not_empty :
  (cells (lit "abcd") > 2)%Z
  /\ (2 < 3)%Z
  /\ truncate_display cells (lit "abcd") 2 = lit "..."
  /\ truncate_display cells (lit "abcd") 2 <> []
  /\ (cells (truncate_display cells (lit "abcd") 2) > 2)%Z.
Proof. repeat split; discriminate. Qed.

(** [C5], as the script has it.  The document of the end-to-end example
    gives exactly four rows, in the order the work-list yields them:
    [tags.1] with [b], [tags.0] with [a], [replicas] with [3] and
    [name] with the unchanged rocket value (whenever the width library
    lets the four values fit the 60 columns).  The type column carries
    Python's type names, [str] and [int]. *)
Theorem example_rows (wcswidth : pystr -> Z) (str_float : spec_float -> pystr)
    (name location : pystr) :
  Forall (fun value => (wcswidth value <= MAX_VALUE_WIDTH)%Z)
    [rocket_service; lit "3"; lit "a"; lit "b"] ->
  report_rows wcswidth str_float name location app_doc
  = [ [name; location; lit "tags.1"; lit "b"; lit "str"];
      [name; location; lit "tags.0"; lit "a"; lit "str"];
      [name; location; lit "replicas"; lit "3"; lit "int"];
      [name; location; lit "name"; rocket_service; lit "str"] ].
Proof.
  intros H.
  inversion_clear H as [| ? ? Hname H1].
  inversion_clear H1 as [| ? ? H3 H2].
  inversion_clear H2 as [| ? ? Ha H4].
  inversion_clear H4 as [| ? ? Hb _].
  unfold report_rows.
  change (flatten app_doc None)
    with [ ([PyStr (lit "tags"); PyInt 1], PyStr (lit "b"));
           ([PyStr (lit "tags"); PyInt 0], PyStr (lit "a"));
           ([PyStr (lit "replicas")], PyInt 3);
           ([PyStr (lit "name")], PyStr rocket_service) ].
  cbn [map str_value].
  change (str_int 3) with (lit "3").
  rewrite (@truncate_fits wcswidth _ _ Hname), (@truncate_fits wcswidth _ _ H3),
    (@truncate_fits wcswidth _ _ Ha), (@truncate_fits wcswidth _ _ Hb).
  reflexivity.
Qed.

Lemma example_rows_witness :
  report_rows cells str_float_special (lit "app.yaml") (lit "app.yaml") app_doc
  = [ [lit "app.yaml"; lit "app.yaml"; lit "tags.1"; lit "b"; lit "str"];
      [lit "app.yaml"; lit "app.yaml"; lit "tags.0"; lit "a"; lit "str"];
      [lit "app.yaml"; lit "app.yaml"; lit "replicas"; lit "3"; lit "int"];
      [lit "app.yaml"; lit "app.yaml"; lit "name"; rocket_service;
       lit "str"] ].
Proof.
  apply (example_rows cells str_float_special (lit "app.yaml")
           (lit "app.yaml")).
  repeat constructor; vm_compute; discriminate.
Defined.

(** [C5] as claimed fails: in the report of the example no row has the
    type tag [string] and none has the type tag [integer]. *)
Lemma example_rows_type_tags :
  map (fun r : list pystr => nth 4 r [])
    (report_rows cells str_float_special (lit "app.yaml") (lit "app.yaml")
       app_doc)
  = [lit "str"; lit "str"; lit "int"; lit "str"]
  /\ ~ In (lit "string")
       (map (fun r : list pystr => nth 4 r [])
          (report_rows cells str_float_special (lit "app.yaml")
             (lit "app.yaml") app_doc))
  /\ ~ In (lit "integer")
       (map (fun r : list pystr => nth 4 r [])
          (report_rows cells str_float_special (lit "app.yaml")
             (lit "app.yaml") app_doc)).
Proof.
  split; [reflexivity |].
  split; vm_compute; intros H;
    repeat (destruct H as [H | H]; [discriminate H |]); exact H.
Qed.

Section ReadYaml.
Variable wcswidth : pystr -> Z.
Variable str_float : spec_float -> pystr.
Variable Path : Type.
Variable path_str : Path -> pystr.

Lemma read_yaml_loaded (fs : filesystem Path) (p : Path) (c : console Path)
    (doc : node) :
  load fs p = Loaded doc ->
  read_yaml path_str fs p c
  = (Done (or_empty_dict doc),
     {| stdout := stdout c; opened := opened c ++ [p] |}).
Proof.
  intros H. unfold read_yaml, bind, open_and_load. rewrite H. reflexivity.
Qed.

Lemma read_yaml_error (fs : filesystem Path) (p : Path) (c : console Path)
    (e : pystr) :
  load fs p = YAMLError e ->
  read_yaml path_str fs p c
  = (SysExit (parse_error_message path_str p e),
     {| stdout := stdout c; opened := opened c ++ [p] |}).
Proof.
  intros H. unfold read_yaml, bind, open_and_load. rewrite H. reflexivity.
Qed.

End ReadYaml.



(** ** The run *)

Section RunFacts.
Variable wcswidth : pystr -> Z.
Variable str_float : spec_float -> pystr.
Variable tabulate : list (list pystr) -> list pystr -> pystr.
Variable Path : Type.
Variable path_str : Path -> pystr.
Variable path_name : Path -> pystr.
Variable relative_to : Path -> Path -> option Path.
Variable fs : filesystem Path.
Variable root : Path.

Local Abbreviation tab_file :=
  (fun p => tabulate_file wcswidth str_float tabulate path_str path_name
              relative_to fs p root).
Local Abbreviation report :=
  (file_report wcswidth str_float tabulate path_str path_name relative_to
     fs root).

Lemma tabulate_file_reportable (p : Path) (c : console Path) :
  reportable relative_to fs root p = true ->
  tab_file p c
  = (Done tt,
     {| stdout := stdout c ++ report p; opened := opened c ++ [p] |}).
Proof.
  unfold reportable, file_report, tabulate_file, bind. intros H.
  destruct (load fs p) as [doc | e | e] eqn:Hload; try discriminate H.
  rewrite (read_yaml_loaded path_str fs p c Hload).
  destruct (relative_to p root) as [rel |]; [| discriminate H].
  unfold print. simpl. now rewrite <- app_assoc.
Qed.

Lemma tabulate_file_error (p : Path) (c : console Path) (e : pystr) :
  load fs p = YAMLError e ->
  tab_file p c
  = (SysExit (parse_error_message path_str p e),
     {| stdout := stdout c; opened := opened c ++ [p] |}).
Proof.
  intros H. unfold tabulate_file, bind.
  now rewrite (read_yaml_error path_str fs p c H).
Qed.

(** Every call opens its file, and nothing else. *)
Lemma tabulate_file_opened (p : Path) (c : console Path) :
  opened (snd (tab_file p c)) = opened c ++ [p].
Proof.
  unfold tabulate_file, read_yaml, bind, open_and_load.
  destruct (load fs p) as [doc | e | e]; simpl; try reflexivity.
  destruct (relative_to p root); reflexivity.
Qed.

(** The loop stops at the first malformed file. *)
Lemma for_each_stops (pre post : list Path) (f : Path) (e : pystr) :
  Forall (fun p => reportable relative_to fs root p = true) pre ->
  load fs f = YAMLError e ->
  forall c,
    for_each (pre ++ f :: post) tab_file c
    = (SysExit (parse_error_message path_str f e),
       {| stdout := stdout c ++ flat_map report pre;
          opened := opened c ++ pre ++ [f] |}).
Proof.
  intros Hpre Hf. induction Hpre as [| p pre Hp _ IH]; intros c; simpl.
  - unfold bind. rewrite (tabulate_file_error _ _ Hf).
    now rewrite app_nil_r.
  - unfold bind at 1. rewrite (tabulate_file_reportable _ _ Hp).
    rewrite IH. simpl. now rewrite <- !app_assoc.
Qed.

(** The files the loop opens are, in order, the first files of its
    list; all of them when the loop runs to its end. *)
Lemma for_each_opened (files : list Path) :
  forall c,
    exists visited rest,
      files = visited ++ rest
      /\ opened (snd (for_each files tab_file c)) = opened c ++ visited
      /\ (fst (for_each files tab_file c) = Done tt -> rest = []).
Proof.
  induction files as [| p files IH]; intros c; simpl.
  - exists [], []. rewrite !app_nil_r. auto.
  - unfold bind at 1 2. pose proof (tabulate_file_opened p c) as Hop.
    destruct (tab_file p c) as [[[] | msg | exc] c']; simpl in Hop.
    + destruct (IH c') as (visited & rest & -> & Hopen & Hdone).
      exists (p :: visited), rest. rewrite Hopen, Hop, <- app_assoc.
      auto.
    + exists [p], files. simpl. rewrite Hop. repeat split. discriminate.
    + exists [p], files. simpl. rewrite Hop. repeat split. discriminate.
Qed.
End RunFacts.

(** [C7] When a discovered file is malformed (the loader raises a
    [YAMLError]) and the files sorted before it were reported, the run
    ends with the one message naming that file's path and the loader's
    diagnostic, and with exit status 1.  The files before it were
    opened and reported, the malformed one was opened, and no file
    after it was. *)
Theorem parse_failure_is_fatal
    (wcswidth : pystr -> Z) (str_float : spec_float -> pystr)
    (tabulate : list (list pystr) -> list pystr -> pystr)
    (Path : Type) (path_str path_name : Path -> pystr)
    (path_ltb : Path -> Path -> bool) (parents : Path -> list Path)
    (joinpath : Path -> pystr -> Path)
    (relative_to : Path -> Path -> option Path)
    (fs : filesystem Path) (root : Path) (pre post : list Path) (f : Path)
    (diagnostic : pystr) :
  find (fun d => is_file fs (joinpath d (lit ".root")))
    (cwd fs :: parents (cwd fs)) = Some root ->
  sorted path_ltb (find_yaml_files path_name fs root) = pre ++ f :: post ->
  Forall (fun p => reportable relative_to fs root p = true) pre ->
  load fs f = YAMLError diagnostic ->
  let run :=
    main wcswidth str_float tabulate path_str path_name path_ltb parents
      joinpath relative_to fs (fresh Path) in
  fst run
  = SysExit (lit "Error parsing YAML at " ++ path_str f ++ lit ": "
             ++ diagnostic)
  /\ exit_status (fst run) = 1%Z
  /\ opened (snd run) = pre ++ [f]
  /\ stdout (snd run)
     = flat_map
         (file_report wcswidth str_float tabulate path_str path_name
            relative_to fs root) pre.
Proof.
  intros Hroot Hfiles Hpre Hf run.
  assert (Hrun : run
                 = (SysExit (parse_error_message path_str f diagnostic),
                    {| stdout :=
                         flat_map
                           (file_report wcswidth str_float tabulate path_str
                              path_name relative_to fs root) pre;
                       opened := pre ++ [f] |})).
  { unfold run, main, bind, find_project_root. rewrite Hroot.
    unfold ret. rewrite Hfiles.
    pose proof (for_each_stops wcswidth str_float tabulate path_str
                  path_name relative_to fs root post f Hpre Hf (fresh Path))
      as Hloop.
    simpl in Hloop. rewrite <- Hloop.
    destruct pre; reflexivity. }
  rewrite Hrun. repeat split.
Qed.

Lemma parse_failure_is_fatal_witness :
  fst (posix_main broken_fs)
  = SysExit (lit "Error parsing YAML at " ++ Posix.path_str b_yml ++ lit ": "
             ++ lit "mapping values are not allowed here")
  /\ exit_status (fst (posix_main broken_fs)) = 1%Z
  /\ opened (snd (posix_main broken_fs)) = [a_yaml] ++ [b_yml]
  /\ stdout (snd (posix_main broken_fs))
     = flat_map
         (file_report cells str_float_special plain_table Posix.path_str
            Posix.path_name Posix.relative_to broken_fs proj) [a_yaml].
Proof.
  apply (@parse_failure_is_fatal cells str_float_special plain_table
           Posix.Path Posix.path_str Posix.path_name Posix.path_ltb
           Posix.parents Posix.joinpath Posix.relative_to broken_fs
           proj [a_yaml] [c_yaml] b_yml
           (lit "mapping values are not allowed here")).
  - reflexivity.
  - reflexivity.
  - repeat constructor.
  - reflexivity.
Defined.

(** ** Patterns *)

Lemma fnmatch_star_unfold (q name : pystr) :
  fnmatch (42%N :: q) name
  = fnmatch q name
    || match name with
       | [] => false
       | _ :: name' => fnmatch (42%N :: q) name'
       end.
Proof. destruct name; reflexivity. Qed.

(** A pattern without wildcard matches itself only. *)
Lemma fnmatch_literal (q : pystr) :
  Forall (fun c => c <> 42%N /\ c <> 63%N) q ->
  forall name, fnmatch q name = true <-> name = q.
Proof.
  induction 1 as [| c q [H42 H63] _ IH]; intros name.
  - destruct name; simpl; split; intros E; try discriminate E; reflexivity.
  - simpl. destruct (N.eqb_spec c 42) as [| _]; [contradiction |].
    destruct name as [| d name]; [split; discriminate |].
    destruct (N.eqb_spec c 63) as [| _]; [contradiction |]. simpl.
    rewrite andb_true_iff, IH, N.eqb_eq. split.
    + now intros [-> ->].
    + intros E. injection E as -> ->. auto.
Qed.

(** A star followed by a literal matches the names that end with it. *)
Lemma fnmatch_star_literal (q : pystr) :
  Forall (fun c => c <> 42%N /\ c <> 63%N) q ->
  forall name, fnmatch (42%N :: q) name = endswith name q.
Proof.
  intros Hq name. apply eq_true_iff_eq. split.
  - induction name as [| d name IH]; rewrite fnmatch_star_unfold;
      intros H; apply orb_true_iff in H as [H | H].
    + apply (fnmatch_literal Hq) in H as ->. apply (endswith_app []).
    + discriminate H.
    + apply (fnmatch_literal Hq) in H as <-. apply (endswith_app []).
    + apply IH in H. apply endswith_inv in H as [pre ->].
      apply (endswith_app (d :: pre)).
  - intros H. apply endswith_inv in H as [pre ->].
    induction pre as [| d pre IH]; rewrite fnmatch_star_unfold;
      apply orb_true_iff.
    + left. now apply (fnmatch_literal Hq).
    + right. exact IH.
Qed.

Lemma yaml_not_yml (name : pystr) :
  endswith name (lit ".yaml") = true ->
  endswith name (lit ".yml") = true -> False.
Proof.
  intros H1 H2.
  apply endswith_inv in H1 as [p1 ->]. apply endswith_inv in H2 as [p2 E].
  apply (f_equal (@rev char)) in E. rewrite !rev_app_distr in E.
  discriminate E.
Qed.

(** ** Sorting *)

Lemma Permutation_filter (A : Type) (f : A -> bool) (l l' : list A) :
  Permutation l l' -> Permutation (filter f l) (filter f l').
Proof.
  induction 1 as [| x l l' _ IH | x y l | l l' l'' _ IH1 _ IH2]; simpl.
  - constructor.
  - destruct (f x); [now constructor | exact IH].
  - destruct (f x), (f y); try reflexivity. constructor.
  - now transitivity (filter f l').
Qed.

Section SortFacts.
Variable Path : Type.
Variable path_ltb : Path -> Path -> bool.
Hypothesis ltb_irrefl : forall p, path_ltb p p = false.
Hypothesis ltb_trans :
  forall p q r, path_ltb p q = true -> path_ltb q r = true ->
                path_ltb p r = true.
Hypothesis ltb_total :
  forall p q, path_ltb p q = false -> path_ltb q p = false -> p = q.

Local Abbreviation le := (fun p q : Path => path_ltb q p = false).

Lemma ltb_asym (p q : Path) : path_ltb p q = true -> path_ltb q p = false.
Proof.
  intros H. destruct (path_ltb q p) eqn:E; [| reflexivity].
  rewrite <- (ltb_irrefl p). symmetry. now apply (@ltb_trans p q p).
Qed.

Lemma le_trans (p q r : Path) : le p q -> le q r -> le p r.
Proof.
  cbv beta. intros Hpq Hqr. destruct (path_ltb r p) eqn:E; [| reflexivity].
  destruct (path_ltb p q) eqn:Epq.
  - rewrite <- Hqr. symmetry. now apply (@ltb_trans r p q).
  - rewrite (@ltb_total p q Epq Hpq) in E. congruence.
Qed.

Lemma insert_perm (x : Path) (l : list Path) :
  Permutation (insert path_ltb x l) (x :: l).
Proof.
  induction l as [| y l IH]; simpl; [reflexivity |].
  destruct (path_ltb y x); [| reflexivity].
  rewrite IH. constructor.
Qed.

Lemma sorted_perm (l : list Path) : Permutation (sorted path_ltb l) l.
Proof.
  induction l as [| x l IH]; simpl; [constructor |].
  rewrite insert_perm. now constructor.
Qed.

Lemma insert_sorted (x : Path) (l : list Path) :
  StronglySorted le l -> StronglySorted le (insert path_ltb x l).
Proof.
  induction 1 as [| y l Hs IH Hy]; simpl.
  - repeat constructor.
  - destruct (path_ltb y x) eqn:E.
    + constructor; [exact IH |].
      eapply Permutation_Forall;
        [symmetry; apply insert_perm |].
      constructor; [now apply ltb_asym | exact Hy].
    + constructor; [now constructor |].
      constructor; [exact E |].
      eapply Forall_impl; [| exact Hy].
      intros z Hz. now apply (@le_trans x y z).
Qed.

Lemma sorted_sorted (l : list Path) : StronglySorted le (sorted path_ltb l).
Proof.
  induction l as [| x l IH]; simpl; [constructor | now apply insert_sorted].
Qed.

(** A list has one sorted arrangement only. *)
Lemma sorted_unique (l1 : list Path) :
  forall l2,
    StronglySorted le l1 -> StronglySorted le l2 -> Permutation l1 l2 ->
    l1 = l2.
Proof.
  induction l1 as [| a l1 IH]; intros l2 H1 H2 Hp.
  - apply Permutation_nil in Hp. now subst.
  - destruct l2 as [| b l2];
      [symmetry in Hp; apply Permutation_nil in Hp; discriminate |].
    inversion_clear H1 as [| ? ? Hs1 Ha]. inversion_clear H2 as [| ? ? Hs2 Hb].
    assert (a = b) as ->.
    { assert (Hab : le a b).
      { assert (Hin : In b (a :: l1))
          by (eapply Permutation_in; [symmetry; exact Hp | now left]).
        destruct Hin as [-> | Hin]; [apply ltb_irrefl |].
        rewrite Forall_forall in Ha. now apply Ha. }
      assert (Hba : le b a).
      { assert (Hin : In a (b :: l2))
          by (eapply Permutation_in; [exact Hp | now left]).
        destruct Hin as [-> | Hin]; [apply ltb_irrefl |].
        rewrite Forall_forall in Hb. now apply Hb. }
      now apply ltb_total. }
    f_equal. apply IH; auto. now apply Permutation_cons_inv in Hp.
Qed.

Lemma sorted_of_perm (l1 l2 : list Path) :
  Permutation l1 l2 -> sorted path_ltb l1 = sorted path_ltb l2.
Proof.
  intros Hp. apply sorted_unique; try apply sorted_sorted.
  now rewrite !sorted_perm.
Qed.

Lemma sorted_strictly (l : list Path) :
  StronglySorted le l -> NoDup l ->
  StronglySorted (fun p q => path_ltb p q = true) l.
Proof.
  induction 1 as [| x l Hs IH Hx]; intros Hnd; [constructor |].
  inversion_clear Hnd as [| ? ? Hnotin Hnd']. constructor; [auto |].
  apply Forall_forall. intros y Hy. rewrite Forall_forall in Hx.
  destruct (path_ltb x y) eqn:E; [reflexivity |].
  exfalso. apply Hnotin. now rewrite (@ltb_total x y E (Hx y Hy)).
Qed.
End SortFacts.

(** ** The order on POSIX paths *)

Section LexFacts.
Variable A : Type.
Variable ltb : A -> A -> bool.
Hypothesis ltb_irrefl : forall x, ltb x x = false.
Hypothesis ltb_trans :
  forall x y z, ltb x y = true -> ltb y z = true -> ltb x z = true.
Hypothesis ltb_total :
  forall x y, ltb x y = false -> ltb y x = false -> x = y.

Lemma lex_irrefl (l : list A) : lex_ltb ltb l l = false.
Proof.
  induction l as [| x l IH]; simpl; [reflexivity |].
  now rewrite ltb_irrefl, IH.
Qed.

Lemma lex_total (l1 : list A) :
  forall l2, lex_ltb ltb l1 l2 = false -> lex_ltb ltb l2 l1 = false ->
             l1 = l2.
Proof.
  induction l1 as [| x l1 IH]; intros [| y l2]; simpl;
    try discriminate; [reflexivity |].
  intros H1 H2.
  apply orb_false_iff in H1 as [Exy H1], H2 as [Eyx H2].
  rewrite Eyx in H1. rewrite Exy in H2. simpl in H1, H2.
  rewrite (@ltb_total x y Exy Eyx). f_equal. now apply IH.
Qed.

Lemma lex_trans (l1 : list A) :
  forall l2 l3, lex_ltb ltb l1 l2 = true -> lex_ltb ltb l2 l3 = true ->
                lex_ltb ltb l1 l3 = true.
Proof.
  induction l1 as [| x l1 IH]; intros [| y l2] [| z l3]; simpl;
    try discriminate; auto.
  intros H1 H2.
  destruct (ltb x y) eqn:Exy, (ltb y z) eqn:Eyz; simpl in H1, H2.
  - now rewrite (@ltb_trans x y z).
  - apply andb_true_iff in H2 as [Ezy H2]. apply negb_true_iff in Ezy.
    rewrite <- (@ltb_total y z Eyz Ezy). now rewrite Exy.
  - apply andb_true_iff in H1 as [Eyx H1]. apply negb_true_iff in Eyx.
    rewrite (@ltb_total x y Exy Eyx). now rewrite Eyz.
  - apply andb_true_iff in H1 as [Eyx H1], H2 as [Ezy H2].
    apply negb_true_iff in Eyx, Ezy.
    rewrite (@ltb_total x y Exy Eyx), (@ltb_total y z Eyz Ezy).
    rewrite ltb_irrefl. simpl. now apply (IH l2).
Qed.
End LexFacts.

Lemma N_ltb_trans (x y z : N) :
  (x <? y)%N = true -> (y <? z)%N = true -> (x <? z)%N = true.
Proof. rewrite !N.ltb_lt. lia. Qed.

Lemma N_ltb_total (x y : N) :
  (x <? y)%N = false -> (y <? x)%N = false -> x = y.
Proof. rewrite !N.ltb_ge. lia. Qed.

Lemma str_ltb_irrefl (s : pystr) : str_ltb s s = false.
Proof. apply lex_irrefl, N.ltb_irrefl. Qed.

Lemma str_ltb_trans (s t u : pystr) :
  str_ltb s t = true -> str_ltb t u = true -> str_ltb s u = true.
Proof.
  apply lex_trans;
    [apply N.ltb_irrefl | apply N_ltb_trans | apply N_ltb_total].
Qed.

Lemma str_ltb_total (s t : pystr) :
  str_ltb s t = false -> str_ltb t s = false -> s = t.
Proof. apply lex_total, N_ltb_total. Qed.

Lemma posix_ltb_irrefl (p : Posix.Path) : Posix.path_ltb p p = false.
Proof. apply lex_irrefl, str_ltb_irrefl. Qed.

Lemma posix_ltb_trans (p q r : Posix.Path) :
  Posix.path_ltb p q = true -> Posix.path_ltb q r = true ->
  Posix.path_ltb p r = true.
Proof.
  apply lex_trans;
    [apply str_ltb_irrefl | apply str_ltb_trans | apply str_ltb_total].
Qed.

Lemma posix_ltb_total (p q : Posix.Path) :
  Posix.path_ltb p q = false -> Posix.path_ltb q p = false -> p = q.
Proof. apply lex_total, str_ltb_total. Qed.

(** ** Discovery *)

Section DiscoveryFacts.
Variable Path : Type.
Variable path_name : Path -> pystr.

Lemma rglob_suffix (fs : filesystem Path) (root : Path) (suffix : pystr) :
  Forall (fun c => c <> 42%N /\ c <> 63%N) suffix ->
  rglob path_name fs root (42%N :: suffix)
  = filter (fun p => endswith (path_name p) suffix) (scan fs root).
Proof.
  intros H. unfold rglob. apply filter_ext. intros p.
  now apply fnmatch_star_literal.
Qed.

Lemma find_yaml_files_filters (fs : filesystem Path) (root : Path) :
  find_yaml_files path_name fs root
  = filter (fun p => endswith (path_name p) (lit ".yaml")) (scan fs root)
    ++ filter (fun p => endswith (path_name p) (lit ".yml")) (scan fs root).
Proof.
  unfold find_yaml_files.
  change (lit "*.yaml") with (42%N :: lit ".yaml").
  change (lit "*.yml") with (42%N :: lit ".yml").
  rewrite !rglob_suffix; [reflexivity | |];
    repeat constructor; discriminate.
Qed.

Lemma find_yaml_files_in (fs : filesystem Path) (root p : Path) :
  In p (find_yaml_files path_name fs root)
  <-> In p (scan fs root)
      /\ (endswith (path_name p) (lit ".yaml") = true
          \/ endswith (path_name p) (lit ".yml") = true).
Proof.
  rewrite find_yaml_files_filters, in_app_iff, !filter_In. tauto.
Qed.

Lemma find_yaml_files_nodup (fs : filesystem Path) (root : Path) :
  NoDup (scan fs root) -> NoDup (find_yaml_files path_name fs root).
Proof.
  intros H. rewrite find_yaml_files_filters.
  apply NoDup_app; try now apply NoDup_filter.
  intros p H1 H2. apply filter_In in H1 as [_ H1], H2 as [_ H2].
  exact (yaml_not_yml _ H1 H2).
Qed.

Lemma find_yaml_files_perm (fs fs' : filesystem Path) (root : Path) :
  Permutation (scan fs' root) (scan fs root) ->
  Permutation (find_yaml_files path_name fs' root)
    (find_yaml_files path_name fs root).
Proof.
  intros H. rewrite !find_yaml_files_filters.
  apply Permutation_app; now apply Permutation_filter.
Qed.
End DiscoveryFacts.

(** * Further properties *)

(** ** flatten: starting path, order, distinct paths *)

Lemma children_prefix (n : node) (p q : path) :
  children n (p ++ q) = map (fun w => (fst w, p ++ snd w)) (children n q).
Proof.
  destruct n as [items | elems | v]; simpl; [| | reflexivity];
    rewrite map_map; apply map_ext; intros [a b]; simpl;
    now rewrite app_assoc.
Qed.

Lemma lifo_prefix_children (n : node) (p q : path) :
  Forall (fun w => forall p q, lifo (fst w) (p ++ q)
                               = map (under p) (lifo (fst w) q))
    (children n q) ->
  flat_map lifo_of (rev (children n (p ++ q)))
  = map (under p) (flat_map lifo_of (rev (children n q))).
Proof.
  intros Hall. rewrite children_prefix, <- map_rev.
  rewrite !flat_map_concat_map, concat_map, !map_map.
  f_equal. apply map_ext_in. intros [c r] Hin. apply in_rev in Hin.
  unfold lifo_of. simpl. rewrite Forall_forall in Hall.
  apply (Hall (c, r) Hin).
Qed.

Lemma lifo_prefix (n : node) :
  forall p q, lifo n (p ++ q) = map (under p) (lifo n q).
Proof.
  induction n as [items IH | elems IH | v] using node_rect'; intros p q.
  - rewrite !lifo_children. apply lifo_prefix_children.
    apply (children_sub
             (fun c => forall p q, lifo c (p ++ q) = map (under p) (lifo c q))
             (PyDict items) q IH).
  - rewrite !lifo_children. apply lifo_prefix_children.
    apply (children_sub
             (fun c => forall p q, lifo c (p ++ q) = map (under p) (lifo c q))
             (PyList elems) q IH).
  - reflexivity.
Qed.

(** [X1] Flattening below a starting path is flattening from the root
    with that path put in front of every key path. *)
Theorem flatten_from_path (obj : node) (p : path) :
  flatten obj (Some p) = map (under p) (flatten obj None).
Proof.
  assert (Hp : path_or_empty (Some p) = p ++ [])
    by (rewrite app_nil_r; now destruct p).
  rewrite !flatten_lifo, Hp. apply lifo_prefix.
Qed.

(** [X2] The order of the pairs: a mapping yields the pairs of its last
    entry first and those of its first entry last, each value flattened
    below its key; a sequence yields the pairs of its last element
    first, each element flattened below its index. *)
Theorem flatten_last_child_first (p : path) :
  (forall items,
      flatten (PyDict items) (Some p)
      = flat_map (fun '(k, v) => flatten v (Some (p ++ [k]))) (rev items))
  /\ (forall elems,
         flatten (PyList elems) (Some p)
         = flat_map
             (fun '(i, x) => flatten x (Some (p ++ [PyInt (Z.of_nat i)])))
             (rev (enumerate elems))).
Proof.
  assert (Hp : path_or_empty (Some p) = p) by now destruct p.
  assert (Hsnoc : forall k, path_or_empty (Some (p ++ [k])) = p ++ [k])
    by (intros k; now destruct p).
  split; intros l; rewrite flatten_lifo, Hp, lifo_children;
    unfold children; rewrite <- map_rev;
    rewrite !flat_map_concat_map, map_map; f_equal;
    apply map_ext; intros [a b]; unfold lifo_of; simpl;
    now rewrite flatten_lifo, Hsnoc.
Qed.

Lemma same_length_prefix (A : Type) (a : list A) :
  forall b x y, length a = length b -> a ++ x = b ++ y -> a = b.
Proof.
  induction a as [| h a IH]; intros [| k b] x y Hlen E;
    try discriminate Hlen; [reflexivity |].
  simpl in E. injection E as -> E. f_equal.
  apply (IH b x y); [now injection Hlen | exact E].
Qed.

(** Pieces whose paths start with distinct prefixes of the same length
    share no path. *)
Lemma NoDup_pieces (f : work -> list entry) (l : list work) :
  (forall w, In w l -> NoDup (map fst (f w))) ->
  (forall w e, In w l -> In e (f w) -> exists q, fst e = snd w ++ q) ->
  (forall w w', In w l -> In w' l -> length (snd w) = length (snd w')) ->
  NoDup (map snd l) ->
  NoDup (map fst (flat_map f l)).
Proof.
  induction l as [| a l IH]; intros Hpiece Hpre Hlen Hnd; simpl;
    [constructor |].
  inversion_clear Hnd as [| ? ? Hnotin Hnd'].
  rewrite map_app. apply NoDup_app.
  - apply Hpiece. now left.
  - apply IH; auto.
    + intros w Hw. apply Hpiece. now right.
    + intros w e Hw. apply Hpre. now right.
    + intros w w' Hw Hw'. apply Hlen; now right.
  - intros pth Hin1 Hin2.
    apply in_map_iff in Hin1 as (e1 & <- & He1).
    apply in_map_iff in Hin2 as (e2 & E & He2).
    apply in_flat_map in He2 as (w & Hw & He2).
    destruct (Hpre a e1 (or_introl eq_refl) He1) as [q1 Hq1].
    destruct (Hpre w e2 (or_intror Hw) He2) as [q2 Hq2].
    apply Hnotin. apply in_map_iff. exists w. split; [| exact Hw].
    apply (same_length_prefix (snd w) (snd a) q2 q1).
    + apply Hlen; [now right | now left].
    + now rewrite <- Hq1, <- Hq2.
Qed.

Lemma unique_keys_dict (items : list (scalar * node)) :
  unique_keys (PyDict items)
  <-> NoDup (map fst items) /\ Forall (fun kv => unique_keys (snd kv)) items.
Proof.
  simpl. apply and_iff_compat_l.
  induction items as [| [k v] items IH]; simpl.
  - split; constructor.
  - rewrite IH. split.
    + intros [Hv Hall]. now constructor.
    + intros H. inversion_clear H. now split.
Qed.

Lemma unique_keys_list (elems : list node) :
  unique_keys (PyList elems) <-> Forall unique_keys elems.
Proof.
  simpl. induction elems as [| x elems IH]; simpl.
  - split; constructor.
  - rewrite IH. split.
    + intros [Hx Hall]. now constructor.
    + intros H. inversion_clear H. now split.
Qed.

Lemma NoDup_map_injective (A B : Type) (f : A -> B) (l : list A) :
  (forall a b, f a = f b -> a = b) -> NoDup l -> NoDup (map f l).
Proof.
  intros Hinj. induction 1 as [| a l Hnotin _ IH]; simpl; constructor;
    [| exact IH].
  intros Hin. apply in_map_iff in Hin as (b & E & Hb).
  apply Hinj in E. subst b. contradiction.
Qed.

Lemma NoDup_map_snoc (p : path) (ks : list scalar) :
  NoDup ks -> NoDup (map (fun k => p ++ [k]) ks).
Proof.
  apply NoDup_map_injective. intros a b E.
  apply app_inv_head in E. now injection E.
Qed.

Lemma children_paths_dict (items : list (scalar * node)) (p : path) :
  map snd (children (PyDict items) p)
  = map (fun k => p ++ [k]) (map fst items).
Proof. simpl. rewrite !map_map. apply map_ext. now intros [k v]. Qed.

Lemma combine_seq_paths (p : path) (elems : list node) :
  forall start,
    map (fun w : nat * node => p ++ [PyInt (Z.of_nat (fst w))])
      (combine (seq start (length elems)) elems)
    = map (fun i => p ++ [PyInt (Z.of_nat i)]) (seq start (length elems)).
Proof.
  induction elems as [| x elems IH]; intros start; simpl; [reflexivity |].
  now rewrite IH.
Qed.

Lemma children_paths_list (elems : list node) (p : path) :
  map snd (children (PyList elems) p)
  = map (fun k => p ++ [k])
      (map (fun i => PyInt (Z.of_nat i)) (seq 0 (length elems))).
Proof.
  simpl. unfold enumerate. rewrite !map_map.
  rewrite <- combine_seq_paths. apply map_ext. now intros [i x].
Qed.

Lemma children_depth (n : node) (p : path) (w : work) :
  In w (children n p) -> length (snd w) = S (length p).
Proof.
  destruct n as [items | elems | v]; simpl; intros Hw; [| | destruct Hw].
  - apply in_map_iff in Hw as ([k v] & <- & _). simpl.
    rewrite length_app. simpl. lia.
  - apply in_map_iff in Hw as ([i x] & <- & _). simpl.
    rewrite length_app. simpl. lia.
Qed.

Lemma children_unique (n : node) (p : path) :
  unique_keys n ->
  Forall (fun w => unique_keys (fst w)) (children n p)
  /\ NoDup (map snd (children n p)).
Proof.
  destruct n as [items | elems | v]; intros H.
  - apply unique_keys_dict in H as [Hnd Hall]. split.
    + apply (children_sub unique_keys (PyDict items) p Hall).
    + rewrite children_paths_dict. now apply NoDup_map_snoc.
  - apply unique_keys_list in H. split.
    + apply (children_sub unique_keys (PyList elems) p H).
    + rewrite children_paths_list. apply NoDup_map_snoc.
      apply NoDup_map_injective; [| apply seq_NoDup].
      intros a b E. injection E as E. lia.
  - split; constructor.
Qed.

Lemma lifo_path_prefix (n : node) (p : path) (e : entry) :
  In e (lifo n p) -> exists q, fst e = p ++ q.
Proof.
  rewrite <- (app_nil_r p) at 1. rewrite lifo_prefix.
  intros H. apply in_map_iff in H as (e' & <- & _). now exists (fst e').
Qed.

Lemma lifo_paths_nodup (n : node) :
  unique_keys n -> forall p, NoDup (map fst (lifo n p)).
Proof.
  induction n as [items IH | elems IH | v] using node_rect'; intros Hu p;
    [| | simpl; repeat constructor; intros []].
  - rewrite lifo_children.
    destruct (children_unique (PyDict items) p Hu) as (Hall & Hnd).
    pose proof (children_depth (PyDict items) p) as Hlen.
    pose proof (children_sub
                  (fun c => unique_keys c ->
                            forall p, NoDup (map fst (lifo c p)))
                  (PyDict items) p IH) as Hsub.
    rewrite Forall_forall in Hall, Hsub.
    apply NoDup_pieces.
    + intros w Hw. apply in_rev in Hw. apply (Hsub w Hw), (Hall w Hw).
    + intros w e _. apply lifo_path_prefix.
    + intros w w' Hw Hw'. apply in_rev in Hw, Hw'.
      now rewrite (Hlen w Hw), (Hlen w' Hw').
    + rewrite map_rev. now apply NoDup_rev.
  - rewrite lifo_children.
    destruct (children_unique (PyList elems) p Hu) as (Hall & Hnd).
    pose proof (children_depth (PyList elems) p) as Hlen.
    pose proof (children_sub
                  (fun c => unique_keys c ->
                            forall p, NoDup (map fst (lifo c p)))
                  (PyList elems) p IH) as Hsub.
    rewrite Forall_forall in Hall, Hsub.
    apply NoDup_pieces.
    + intros w Hw. apply in_rev in Hw. apply (Hsub w Hw), (Hall w Hw).
    + intros w e _. apply lifo_path_prefix.
    + intros w w' Hw Hw'. apply in_rev in Hw, Hw'.
      now rewrite (Hlen w Hw), (Hlen w' Hw').
    + rewrite map_rev. now apply NoDup_rev.
Qed.

(** [X3] In a tree whose mappings have pairwise distinct keys, no two
    pairs that [flatten] yields have the same key path. *)
Theorem flatten_paths_distinct (obj : node) (p : option path) :
  unique_keys obj -> NoDup (map fst (flatten obj p)).
Proof. intros H. rewrite flatten_lifo. now apply lifo_paths_nodup. Qed.

Lemma flatten_paths_distinct_witness :
  NoDup (map fst (flatten app_doc None)).
Proof.
  apply (flatten_paths_distinct app_doc None). simpl.
  repeat split. repeat constructor; simpl; intuition discriminate.
Defined.

(** ** truncate_display: where the cut falls, and the budget *)

Section TruncateCut.
Variable wcswidth : pystr -> Z.
Local Abbreviation dw := (display_width wcswidth).
Local Open Scope Z_scope.

(** The loop stops at the first character that would take the running
    width past [b - 3]; every character before it was within it. *)
Lemma truncate_loop_first_overflow (b : Z) (rest : pystr) :
  forall out width,
    (exists pre ch post,
        rest = pre ++ ch :: post
        /\ truncate_loop wcswidth b rest out width = out ++ pre ++ ELLIPSIS
        /\ width + dw pre + wcswidth [ch] > b - 3
        /\ (forall u c v, pre = u ++ c :: v ->
                          width + dw u + wcswidth [c] <= b - 3))
    \/ (truncate_loop wcswidth b rest out width = out ++ rest
        /\ (forall u c v, rest = u ++ c :: v ->
                          width + dw u + wcswidth [c] <= b - 3)).
Proof.
  induction rest as [| ch rest IH]; intros out width.
  - right. simpl. rewrite app_nil_r. split; [reflexivity |].
    intros [| h u] c v E; discriminate E.
  - simpl. destruct (Z.gtb_spec (width + wcswidth [ch]) (b - 3)) as [Hgt | Hle].
    + left. exists [], ch, rest. simpl. repeat split; [lia |].
      intros [| h u] c v E; discriminate E.
    + destruct (IH (out ++ [ch]) (width + wcswidth [ch]))
        as [(pre & c0 & post & -> & Hr & Hgt & Hbefore) | [Hr Hall]].
      * left. exists (ch :: pre), c0, post. simpl.
        rewrite Hr, <- app_assoc. simpl. repeat split; [lia |].
        intros [| h u] c v E; simpl in E; injection E as -> E; simpl.
        -- lia.
        -- specialize (Hbefore u c v E). lia.
      * right. rewrite Hr, <- app_assoc. simpl. split; [reflexivity |].
        intros [| h u] c v E; simpl in E; injection E as -> E; simpl.
        -- lia.
        -- specialize (Hall u c v E). lia.
Qed.

Lemma truncate_width_le (s : pystr) (b : Z) :
  wcswidth (lit ".") = 1 ->
  wcswidth s = dw s ->
  3 <= b ->
  dw (truncate_display wcswidth s b) <= b.
Proof.
  intros Hdot Hs Hb.
  destruct (Z.leb_spec (wcswidth s) b) as [Hfit | Hno].
  - rewrite (@truncate_fits wcswidth s b Hfit). lia.
  - destruct (@truncate_clipped wcswidth s b Hs) as [[_ ->] | (pre & -> & Hpre)];
      [lia | simpl; lia |].
    rewrite display_width_app, (display_width_ellipsis _ Hdot).
    destruct Hpre as [-> | Hpre]; simpl; lia.
Qed.
End TruncateCut.

(** [X4] A string that does not fit its budget is cut at the first
    character that would take the running width past the budget less
    three: the characters before it are kept, the ellipsis follows, and
    that character and everything after it are dropped.  If no
    character does that, the string comes back whole, without
    ellipsis. *)
Theorem truncate_cut_at_first_overflow (wcswidth : pystr -> Z) (s : pystr)
    (b : Z) :
  (wcswidth s > b)%Z ->
  (exists pre ch post,
      s = pre ++ ch :: post
      /\ truncate_display wcswidth s b = pre ++ ELLIPSIS
      /\ (display_width wcswidth pre + wcswidth [ch] > b - 3)%Z
      /\ (forall u c v,
             pre = u ++ c :: v ->
             (display_width wcswidth u + wcswidth [c] <= b - 3)%Z))
  \/ (truncate_display wcswidth s b = s
      /\ (forall u c v,
             s = u ++ c :: v ->
             (display_width wcswidth u + wcswidth [c] <= b - 3)%Z)).
Proof.
  intros Hno. unfold truncate_display.
  destruct (Z.leb_spec (wcswidth s) b) as [| _]; [lia |].
  destruct (truncate_loop_first_overflow wcswidth b s [] 0%Z)
    as [(pre & ch & post & Hs & Hr & Hgt & Hbefore) | [Hr Hall]].
  - left. exists pre, ch, post. rewrite Hr.
    split; [exact Hs | split; [reflexivity | split; [lia |]]].
    intros u c v E. specialize (Hbefore u c v E). lia.
  - right. rewrite Hr. split; [reflexivity |].
    intros u c v E. specialize (Hall u c v E). lia.
Qed.

Lemma truncate_cut_at_first_overflow_witness :
  (exists pre ch post,
      long_value = pre ++ ch :: post
      /\ truncate_display cells long_value 20 = pre ++ ELLIPSIS
      /\ (display_width cells pre + cells [ch] > 20 - 3)%Z
      /\ (forall u c v,
             pre = u ++ c :: v ->
             (display_width cells u + cells [c] <= 20 - 3)%Z))
  \/ (truncate_display cells long_value 20 = long_value
      /\ (forall u c v,
             long_value = u ++ c :: v ->
             (display_width cells u + cells [c] <= 20 - 3)%Z)).
Proof.
  apply (@truncate_cut_at_first_overflow cells long_value 20%Z).
  vm_compute. reflexivity.
Defined.

(** [X5] For every budget of at least three columns, when the width
    library gives the full stop one column and the string the sum of
    the widths of its characters, the result of [truncate_display] is
    at most as wide as the budget. *)
Theorem truncate_within_budget (wcswidth : pystr -> Z) (s : pystr) (b : Z) :
  wcswidth (lit ".") = 1%Z ->
  wcswidth s = display_width wcswidth s ->
  (3 <= b)%Z ->
  (display_width wcswidth (truncate_display wcswidth s b) <= b)%Z.
Proof. apply truncate_width_le. Qed.

Lemma truncate_within_budget_witness :
  (display_width cells (truncate_display cells long_value 7) <= 7)%Z.
Proof.
  apply (@truncate_within_budget cells long_value 7%Z cells_dot
           (cells_sum long_value)).
  lia.
Defined.

(** ** Key paths and rows *)

Lemma str_or_nonempty (a x d : pystr) (c : char) :
  str_or (a ++ c :: x) d = a ++ c :: x.
Proof. now destruct a. Qed.

(** [X6] The key-path cell is never blank.  It is the segments' [str()]
    joined by full stops, except when that would be empty, where it is
    [(root)]: for the empty path, and also for a path made of a single
    key whose [str()] is empty. *)
Theorem key_str_never_blank (str_float : spec_float -> pystr) (kp : path) :
  key_str str_float kp <> []
  /\ (key_str str_float kp = join (lit ".") (map (str_value str_float) kp)
      \/ (key_str str_float kp = lit "(root)"
          /\ (kp = [] \/ exists k, kp = [k] /\ str_value str_float k = []))).
Proof.
  destruct kp as [| k1 [| k2 rest]]; unfold key_str.
  - split; [discriminate | right; split; [reflexivity | now left]].
  - simpl map. simpl join. destruct (str_value str_float k1) eqn:E.
    + split; [discriminate |]. right. split; [reflexivity |].
      right. now exists k1.
    + split; [discriminate | now left].
  - change (join (lit ".") (map (str_value str_float) (k1 :: k2 :: rest)))
      with (str_value str_float k1
            ++ 46%N :: join (lit ".") (map (str_value str_float) (k2 :: rest))).
    rewrite str_or_nonempty. split; [| now left].
    now destruct (str_value str_float k1).
Qed.

Section RowFacts.
Variable wcswidth : pystr -> Z.
Variable str_float : spec_float -> pystr.

Lemma length_flatten (data : node) (p : option path) :
  length (flatten data p) = count_leaves data.
Proof.
  rewrite flatten_lifo, (Permutation_length (lifo_perm_leaves _ _)).
  apply length_leaves.
Qed.

Lemma report_rows_nil (name location : pystr) (data : node) :
  report_rows wcswidth str_float name location data = []
  <-> count_leaves data = 0%nat.
Proof.
  unfold report_rows. rewrite <- (length_flatten data None).
  rewrite length_zero_iff_nil. split.
  - apply map_eq_nil.
  - now intros ->.
Qed.
End RowFacts.

(** [X7] The rows built from loaded data are as many as the data has
    leaves; every row has five cells, one per header, the first being
    the file name and the second its location. *)
Theorem report_rows_shape (wcswidth : pystr -> Z)
    (str_float : spec_float -> pystr) (name location : pystr) (data : node) :
  length (report_rows wcswidth str_float name location data)
  = count_leaves data
  /\ Forall (fun r : list pystr =>
               length r = length HEADERS
               /\ nth 0 r [] = name /\ nth 1 r [] = location)
       (report_rows wcswidth str_float name location data).
Proof.
  unfold report_rows. split.
  - rewrite length_map. apply length_flatten.
  - rewrite Forall_map. apply Forall_forall. intros [kp v] _.
    repeat split.
Qed.

(** [X8] No value cell is wider than 60 columns, when the width library
    gives the full stop one column and every string the sum of the
    widths of its characters. *)
Theorem report_values_fit (wcswidth : pystr -> Z)
    (str_float : spec_float -> pystr) (name location : pystr) (data : node) :
  wcswidth (lit ".") = 1%Z ->
  (forall t, wcswidth t = display_width wcswidth t) ->
  Forall (fun r : list pystr =>
            (display_width wcswidth (nth 3 r []) <= MAX_VALUE_WIDTH)%Z)
    (report_rows wcswidth str_float name location data).
Proof.
  intros Hdot Hsum. unfold report_rows. rewrite Forall_map.
  apply Forall_forall. intros [kp v] _. simpl.
  apply truncate_width_le; auto. unfold MAX_VALUE_WIDTH. lia.
Qed.

Lemma report_values_fit_witness :
  Forall (fun r : list pystr =>
            (display_width cells (nth 3 r []) <= MAX_VALUE_WIDTH)%Z)
    (report_rows cells str_float_special (lit "app.yaml") (lit "app.yaml")
       (PyList [Leaf (PyStr long_value); Leaf (PyInt 3)])).
Proof.
  apply (report_values_fit cells str_float_special (lit "app.yaml")
           (lit "app.yaml") (PyList [Leaf (PyStr long_value); Leaf (PyInt 3)])
           cells_dot cells_sum).
Defined.

(** [X9] The table of a file has no row exactly when the loaded
    document counts as false in Python or has no leaf at all. *)
Theorem report_empty_iff (wcswidth : pystr -> Z)
    (str_float : spec_float -> pystr) (name location : pystr) (doc : node) :
  report_rows wcswidth str_float name location (or_empty_dict doc) = []
  <-> truthy doc = false \/ count_leaves doc = 0%nat.
Proof.
  rewrite report_rows_nil. unfold or_empty_dict.
  destruct (truthy doc) eqn:E; simpl.
  - split; [now right | intros [H | H]; [discriminate H | exact H]].
  - split; [now left | reflexivity].
Qed.

(** ** The root locator and the run *)

Lemma find_first (A : Type) (f : A -> bool) (l : list A) (d : A) :
  find f l = Some d ->
  exists before after,
    l = before ++ d :: after
    /\ Forall (fun a => f a = false) before
    /\ f d = true.
Proof.
  induction l as [| a l IH]; simpl; [discriminate |].
  destruct (f a) eqn:E.
  - intros H. injection H as ->. exists [], l. repeat split; auto.
  - intros H. destruct (IH H) as (before & after & -> & Hb & Hd).
    exists (a :: before), after. repeat split; auto.
Qed.

Lemma find_none (A : Type) (f : A -> bool) (l : list A) :
  Forall (fun a => f a = false) l -> find f l = None.
Proof.
  induction 1 as [| a l Ha _ IH]; simpl; [reflexivity |]. now rewrite Ha.
Qed.

Lemma filter_none (A : Type) (f : A -> bool) (l : list A) :
  Forall (fun a => f a = false) l -> filter f l = [].
Proof.
  induction 1 as [| a l Ha _ IH]; simpl; [reflexivity |]. now rewrite Ha.
Qed.

Section RunMore.
Variable wcswidth : pystr -> Z.
Variable str_float : spec_float -> pystr.
Variable tabulate : list (list pystr) -> list pystr -> pystr.
Variable Path : Type.
Variable path_str : Path -> pystr.
Variable path_name : Path -> pystr.
Variable path_ltb : Path -> Path -> bool.
Variable parents : Path -> list Path.
Variable joinpath : Path -> pystr -> Path.
Variable relative_to : Path -> Path -> option Path.

Local Abbreviation tab_file :=
  (tabulate_file wcswidth str_float tabulate path_str path_name relative_to).
Local Abbreviation report :=
  (file_report wcswidth str_float tabulate path_str path_name relative_to).
Local Abbreviation run_main fs :=
  (main wcswidth str_float tabulate path_str path_name path_ltb
     parents joinpath relative_to fs (fresh Path)).
Local Abbreviation marker_in :=
  (fun (fs : filesystem Path) (marker : pystr) (d : Path) =>
     is_file fs (joinpath d marker)).

(** What one call prints is the report of its file, which is empty for
    a file that does not load or lies outside the root. *)
Lemma tabulate_file_stdout (fs : filesystem Path) (p root : Path)
    (c : console Path) :
  stdout (snd (tab_file fs p root c)) = stdout c ++ report fs root p.
Proof.
  unfold tabulate_file, file_report, read_yaml, bind, open_and_load.
  destruct (load fs p) as [doc | e | e]; simpl;
    try (now rewrite app_nil_r).
  destruct (relative_to p root); simpl;
    [now rewrite <- app_assoc | now rewrite app_nil_r].
Qed.

Lemma tabulate_file_done (fs : filesystem Path) (p root : Path)
    (c : console Path) :
  fst (tab_file fs p root c) = Done tt
  <-> reportable relative_to fs root p = true.
Proof.
  unfold tabulate_file, reportable, read_yaml, bind, open_and_load.
  destruct (load fs p) as [doc | e | e]; simpl;
    try (split; discriminate).
  destruct (relative_to p root); simpl; split; auto; discriminate.
Qed.

(** The loop prints the reports of the files it opens. *)
Lemma for_each_stdout (fs : filesystem Path) (root : Path)
    (files : list Path) :
  forall c,
    exists visited,
      opened (snd (for_each files (fun p => tab_file fs p root) c))
      = opened c ++ visited
      /\ stdout (snd (for_each files (fun p => tab_file fs p root) c))
         = stdout c ++ flat_map (report fs root) visited.
Proof.
  induction files as [| p files IH]; intros c; simpl.
  - exists []. simpl. now rewrite !app_nil_r.
  - unfold bind at 1 2.
    pose proof (tabulate_file_opened wcswidth str_float tabulate path_str
                  path_name relative_to fs root p c) as Hop.
    pose proof (tabulate_file_stdout fs p root c) as Hout.
    destruct (tab_file fs p root c) as [[[] | msg | exc] c'];
      simpl in Hop, Hout.
    + destruct (IH c') as (visited & Hopen & Hprint).
      exists (p :: visited). rewrite Hopen, Hprint, Hop, Hout. simpl.
      now rewrite <- !app_assoc.
    + exists [p]. simpl. now rewrite Hop, Hout, app_nil_r.
    + exists [p]. simpl. now rewrite Hop, Hout, app_nil_r.
Qed.

Lemma for_each_all (fs : filesystem Path) (root : Path) (files : list Path) :
  Forall (fun p => reportable relative_to fs root p = true) files ->
  forall c,
    for_each files (fun p => tab_file fs p root) c
    = (Done tt,
       {| stdout := stdout c ++ flat_map (report fs root) files;
          opened := opened c ++ files |}).
Proof.
  induction 1 as [| p files Hp _ IH]; intros c; simpl.
  - unfold ret. rewrite !app_nil_r. now destruct c.
  - unfold bind.
    rewrite (tabulate_file_reportable wcswidth str_float tabulate path_str
               path_name relative_to fs root p c Hp).
    rewrite IH. simpl. now rewrite <- !app_assoc.
Qed.

Lemma for_each_raises (fs : filesystem Path) (root : Path)
    (pre post : list Path) (f : Path) (exc : pystr) :
  Forall (fun p => reportable relative_to fs root p = true) pre ->
  load fs f = OtherError exc ->
  forall c,
    for_each (pre ++ f :: post) (fun p => tab_file fs p root) c
    = (Raised exc,
       {| stdout := stdout c ++ flat_map (report fs root) pre;
          opened := opened c ++ pre ++ [f] |}).
Proof.
  intros Hpre Hf. induction Hpre as [| p pre Hp _ IH]; intros c; simpl.
  - unfold bind, tabulate_file, read_yaml, bind, open_and_load.
    rewrite Hf. simpl. now rewrite app_nil_r.
  - unfold bind at 1.
    rewrite (tabulate_file_reportable wcswidth str_float tabulate path_str
               path_name relative_to fs root p c Hp).
    rewrite IH. simpl. now rewrite <- !app_assoc.
Qed.

Lemma report_length (fs : filesystem Path) (root p : Path) :
  reportable relative_to fs root p = true ->
  length (report fs root p) = 2%nat.
Proof.
  unfold reportable, file_report.
  destruct (load fs p); try discriminate.
  destruct (relative_to p root); [reflexivity | discriminate].
Qed.

(** [X10] When the root locator returns a directory, it is the start
    directory or one of its parents, it holds the marker as a regular
    file, and no directory nearer to the start does; the console is
    left untouched. *)
Theorem find_project_root_nearest (fs : filesystem Path) (marker : pystr)
    (c : console Path) (d : Path) :
  fst (find_project_root path_str parents joinpath fs marker c) = Done d ->
  snd (find_project_root path_str parents joinpath fs marker c) = c
  /\ is_file fs (joinpath d marker) = true
  /\ exists nearer farther,
       cwd fs :: parents (cwd fs) = nearer ++ d :: farther
       /\ Forall (fun a => is_file fs (joinpath a marker) = false) nearer.
Proof.
  unfold find_project_root.
  destruct (find (marker_in fs marker) (cwd fs :: parents (cwd fs)))
    as [d' |] eqn:E; simpl; [| discriminate].
  intros H. injection H as <-.
  destruct (find_first _ _ E) as (before & after & Hchain & Hb & Hd).
  split; [reflexivity | split; [exact Hd |]].
  now exists before, after.
Qed.

(** [X11] When neither the start directory nor any of its parents holds
    the marker [.root], the run ends at once with the message naming
    the marker and the start directory, with exit status 1; nothing is
    printed and no file is opened. *)
Theorem main_marker_missing (fs : filesystem Path) :
  Forall (fun d => is_file fs (joinpath d (lit ".root")) = false)
    (cwd fs :: parents (cwd fs)) ->
  run_main fs
  = (SysExit (lit "Error: marker '.root' not found from "
              ++ path_str (cwd fs) ++ lit " upward"),
     fresh Path)
  /\ exit_status (fst (run_main fs)) = 1%Z.
Proof.
  intros H.
  assert (E : run_main fs
              = (SysExit (lit "Error: marker '.root' not found from "
                          ++ path_str (cwd fs) ++ lit " upward"),
                 fresh Path)).
  { unfold main, bind, find_project_root.
    rewrite (find_none (marker_in fs (lit ".root")) H). reflexivity. }
  rewrite E. split; reflexivity.
Qed.

(** [X12] When the root is found but no entry beneath it has a name
    ending in [.yaml] or [.yml], the run ends with the message
    [No YAML files found under project root.] and exit status 1;
    nothing is printed and no file is opened. *)
Theorem main_no_files (fs : filesystem Path) (root : Path) :
  find (fun d => is_file fs (joinpath d (lit ".root")))
    (cwd fs :: parents (cwd fs)) = Some root ->
  Forall (fun p => endswith (path_name p) (lit ".yaml") = false
                   /\ endswith (path_name p) (lit ".yml") = false)
    (scan fs root) ->
  run_main fs
  = (SysExit (lit "No YAML files found under project root."), fresh Path)
  /\ exit_status (fst (run_main fs)) = 1%Z.
Proof.
  intros Hroot Hnone.
  assert (Hfiles : find_yaml_files path_name fs root = []).
  { rewrite find_yaml_files_filters.
    rewrite !filter_none; [reflexivity | |];
      eapply Forall_impl; try exact Hnone; now intros p [H1 H2]. }
  assert (E : run_main fs
              = (SysExit (lit "No YAML files found under project root."),
                 fresh Path)).
  { unfold main, bind, find_project_root. rewrite Hroot. unfold ret.
    rewrite Hfiles. reflexivity. }
  rewrite E. split; reflexivity.
Qed.

(** [X13] When the root is found, at least one file is discovered and
    every discovered file loads and lies beneath the root, the run
    returns with exit status 0, having opened the files in sorted order
    and printed for each, in that order, its header and then its
    table: two strings per file. *)
Theorem main_reports_every_file (fs : filesystem Path) (root : Path) :
  find (fun d => is_file fs (joinpath d (lit ".root")))
    (cwd fs :: parents (cwd fs)) = Some root ->
  find_yaml_files path_name fs root <> [] ->
  Forall (fun p => reportable relative_to fs root p = true)
    (sorted path_ltb (find_yaml_files path_name fs root)) ->
  run_main fs
  = (Done tt,
     {| stdout :=
          flat_map (report fs root)
            (sorted path_ltb (find_yaml_files path_name fs root));
        opened := sorted path_ltb (find_yaml_files path_name fs root) |})
  /\ exit_status (fst (run_main fs)) = 0%Z
  /\ length (stdout (snd (run_main fs)))
     = (2 * length (find_yaml_files path_name fs root))%nat.
Proof.
  intros Hroot Hsome Hall.
  assert (E : run_main fs
              = (Done tt,
                 {| stdout :=
                      flat_map (report fs root)
                        (sorted path_ltb (find_yaml_files path_name fs root));
                    opened :=
                      sorted path_ltb (find_yaml_files path_name fs root) |})).
  { unfold main, bind, find_project_root. rewrite Hroot. unfold ret.
    pose proof (@for_each_all fs root _ Hall (fresh Path)) as Hloop. simpl in Hloop.
    destruct (sorted path_ltb (find_yaml_files path_name fs root))
      as [| p l] eqn:Es; [| exact Hloop].
    exfalso. apply Hsome. apply Permutation_nil.
    rewrite <- Es. apply sorted_perm. }
  rewrite E. split; [reflexivity | split; [reflexivity |]]. simpl.
  rewrite <- (Permutation_length (sorted_perm path_ltb _)).
  clear E Hsome. induction Hall as [| p l Hp _ IH]; simpl; [reflexivity |].
  rewrite length_app, IH, (@report_length fs root p Hp). lia.
Qed.

(** [X14] A file that cannot be opened or decoded is not turned into a
    parse-error exit: the exception leaves [main] uncaught, with exit
    status 1, after the files sorted before it were reported; no later
    file is opened. *)
Theorem main_uncaught_error (fs : filesystem Path) (root : Path)
    (pre post : list Path) (f : Path) (exc : pystr) :
  find (fun d => is_file fs (joinpath d (lit ".root")))
    (cwd fs :: parents (cwd fs)) = Some root ->
  sorted path_ltb (find_yaml_files path_name fs root) = pre ++ f :: post ->
  Forall (fun p => reportable relative_to fs root p = true) pre ->
  load fs f = OtherError exc ->
  run_main fs
  = (Raised exc,
     {| stdout := flat_map (report fs root) pre; opened := pre ++ [f] |})
  /\ exit_status (fst (run_main fs)) = 1%Z.
Proof.
  intros Hroot Hfiles Hpre Hf.
  assert (E : run_main fs
              = (Raised exc,
                 {| stdout := flat_map (report fs root) pre;
                    opened := pre ++ [f] |})).
  { unfold main, bind, find_project_root. rewrite Hroot. unfold ret.
    rewrite Hfiles.
    pose proof (@for_each_raises fs root pre post f exc Hpre Hf (fresh Path))
      as Hloop.
    simpl in Hloop. rewrite <- Hloop. destruct pre; reflexivity. }
  rewrite E. split; reflexivity.
Qed.


(** [X16] In every run that finds the root, what standard output holds
    at the end is, in order, the reports of the files that were opened;
    a file that failed contributes nothing. *)
Theorem main_prints_reports_of_opened (fs : filesystem Path) (root : Path) :
  find (fun d => is_file fs (joinpath d (lit ".root")))
    (cwd fs :: parents (cwd fs)) = Some root ->
  stdout (snd (run_main fs))
  = flat_map (report fs root) (opened (snd (run_main fs))).
Proof.
  intros Hroot. unfold main, bind, find_project_root. rewrite Hroot.
  unfold ret.
  destruct (sorted path_ltb (find_yaml_files path_name fs root)) as [| p l];
    [reflexivity |].
  destruct (for_each_stdout fs root (p :: l) (fresh Path))
    as (visited & Hopen & Hprint).
  rewrite Hopen, Hprint. reflexivity.
Qed.
End RunMore.

Lemma find_project_root_nearest_witness :
  snd (find_project_root Posix.path_str Posix.parents Posix.joinpath
         broken_fs (lit ".root") (fresh Posix.Path)) = fresh Posix.Path
  /\ is_file broken_fs (Posix.joinpath proj (lit ".root")) = true
  /\ exists nearer farther,
       cwd broken_fs :: Posix.parents (cwd broken_fs)
       = nearer ++ proj :: farther
       /\ Forall (fun a => is_file broken_fs (Posix.joinpath a (lit ".root"))
                           = false) nearer.
Proof.
  apply (@find_project_root_nearest Posix.Path Posix.path_str Posix.parents
           Posix.joinpath broken_fs (lit ".root") (fresh Posix.Path) proj).
  reflexivity.
Defined.

Lemma main_marker_missing_witness :
  posix_main bare_fs
  = (SysExit (lit "Error: marker '.root' not found from "
              ++ Posix.path_str (cwd bare_fs) ++ lit " upward"),
     fresh Posix.Path)
  /\ exit_status (fst (posix_main bare_fs)) = 1%Z.
Proof.
  apply (@main_marker_missing cells str_float_special plain_table Posix.Path
           Posix.path_str Posix.path_name Posix.path_ltb Posix.parents
           Posix.joinpath Posix.relative_to bare_fs).
  repeat constructor.
Defined.

Lemma main_no_files_witness :
  posix_main empty_fs
  = (SysExit (lit "No YAML files found under project root."),
     fresh Posix.Path)
  /\ exit_status (fst (posix_main empty_fs)) = 1%Z.
Proof.
  apply (@main_no_files cells str_float_special plain_table Posix.Path
           Posix.path_str Posix.path_name Posix.path_ltb Posix.parents
           Posix.joinpath Posix.relative_to empty_fs proj).
  - reflexivity.
  - repeat constructor.
Defined.

Lemma main_reports_every_file_witness :
  posix_main example_fs
  = (Done tt,
     {| stdout :=
          flat_map
            (file_report cells str_float_special plain_table Posix.path_str
               Posix.path_name Posix.relative_to example_fs proj)
            (sorted Posix.path_ltb
               (find_yaml_files Posix.path_name example_fs proj));
        opened :=
          sorted Posix.path_ltb
            (find_yaml_files Posix.path_name example_fs proj) |})
  /\ exit_status (fst (posix_main example_fs)) = 0%Z
  /\ length (stdout (snd (posix_main example_fs)))
     = (2 * length (find_yaml_files Posix.path_name example_fs proj))%nat.
Proof.
  apply (@main_reports_every_file cells str_float_special plain_table
           Posix.Path Posix.path_str Posix.path_name Posix.path_ltb
           Posix.parents Posix.joinpath Posix.relative_to example_fs proj).
  - reflexivity.
  - discriminate.
  - repeat constructor.
Defined.

Lemma main_uncaught_error_witness :
  posix_main unreadable_fs
  = (Raised (lit "PermissionError"),
     {| stdout :=
          flat_map
            (file_report cells str_float_special plain_table Posix.path_str
               Posix.path_name Posix.relative_to unreadable_fs proj)
            [a_yaml];
        opened := [a_yaml] ++ [b_yml] |})
  /\ exit_status (fst (posix_main unreadable_fs)) = 1%Z.
Proof.
  apply (@main_uncaught_error cells str_float_special plain_table Posix.Path
           Posix.path_str Posix.path_name Posix.path_ltb Posix.parents
           Posix.joinpath Posix.relative_to unreadable_fs proj
           [a_yaml] [c_yaml] b_yml (lit "PermissionError")).
  - reflexivity.
  - reflexivity.
  - repeat constructor.
  - reflexivity.
Defined.

Lemma main_prints_reports_of_opened_witness :
  stdout (snd (posix_main broken_fs))
  = flat_map
      (file_report cells str_float_special plain_table Posix.path_str
         Posix.path_name Posix.relative_to broken_fs proj)
      (opened (snd (posix_main broken_fs))).
Proof.
  apply (@main_prints_reports_of_opened cells str_float_special plain_table
           Posix.Path Posix.path_str Posix.path_name Posix.path_ltb
           Posix.parents Posix.joinpath Posix.relative_to broken_fs proj).
  reflexivity.
Defined.

Section RunDone.
Variable wcswidth : pystr -> Z.
Variable str_float : spec_float -> pystr.
Variable tabulate : list (list pystr) -> list pystr -> pystr.
Variable Path : Type.
Variable path_str : Path -> pystr.
Variable path_name : Path -> pystr.
Variable path_ltb : Path -> Path -> bool.
Variable parents : Path -> list Path.
Variable joinpath : Path -> pystr -> Path.
Variable relative_to : Path -> Path -> option Path.

Local Abbreviation tab_file :=
  (tabulate_file wcswidth str_float tabulate path_str path_name relative_to).

Lemma for_each_done (fs : filesystem Path) (root : Path) (files : list Path) :
  forall c,
    fst (for_each files (fun p => tab_file fs p root) c) = Done tt ->
    Forall (fun p => reportable relative_to fs root p = true) files.
Proof.
  induction files as [| p files IH]; intros c; simpl; [constructor |].
  unfold bind.
  pose proof (tabulate_file_done wcswidth str_float tabulate path_str
                path_name relative_to fs p root c) as Hdone.
  destruct (tab_file fs p root c) as [[[] | msg | exc] c']; simpl in *;
    try discriminate.
  intros H. constructor; [now apply Hdone | now apply (IH c')].
Qed.

(** [X17] The run returns normally, with exit status 0, only when the
    root was found, at least one file was discovered, and every
    discovered file loaded and lay beneath the root. *)
Theorem main_done_only_if_all_reported (fs : filesystem Path) :
  fst (main wcswidth str_float tabulate path_str path_name path_ltb parents
         joinpath relative_to fs (fresh Path)) = Done tt ->
  exists root,
    find (fun d => is_file fs (joinpath d (lit ".root")))
      (cwd fs :: parents (cwd fs)) = Some root
    /\ find_yaml_files path_name fs root <> []
    /\ Forall (fun p => reportable relative_to fs root p = true)
         (sorted path_ltb (find_yaml_files path_name fs root)).
Proof.
  unfold main, bind, find_project_root.
  destruct (find (fun d => is_file fs (joinpath d (lit ".root")))
              (cwd fs :: parents (cwd fs))) as [root |];
    [| discriminate].
  unfold ret.
  destruct (sorted path_ltb (find_yaml_files path_name fs root))
    as [| p l] eqn:Es; [discriminate |].
  intros H. exists root. split; [reflexivity | split].
  - intros E. rewrite E in Es. discriminate Es.
  - rewrite Es. exact (for_each_done fs root (p :: l) (fresh Path) H).
Qed.
End RunDone.

Lemma main_done_only_if_all_reported_witness :
  exists root,
    find (fun d => is_file example_fs (Posix.joinpath d (lit ".root")))
      (cwd example_fs :: Posix.parents (cwd example_fs)) = Some root
    /\ find_yaml_files Posix.path_name example_fs root <> []
    /\ Forall (fun p => reportable Posix.relative_to example_fs root p = true)
         (sorted Posix.path_ltb
            (find_yaml_files Posix.path_name example_fs root)).
Proof.
  apply (@main_done_only_if_all_reported cells str_float_special plain_table
           Posix.Path Posix.path_str Posix.path_name Posix.path_ltb
           Posix.parents Posix.joinpath Posix.relative_to example_fs).
  reflexivity.
Defined.

(** * The width library as it is, and the order of paths *)

(** [C3] A string wider than 60 columns should come back cut to at most
    60 columns and end with the ellipsis.  The script does not do that
    for a value holding a control character: the library gives such a
    string the width -1, which passes the test against the budget, so
    the value of 99 letters and a newline (98 columns by its
    characters) comes back whole, without ellipsis. *)
Theorem truncate_newline_value_whole :
  wcswidth_lib newline_value = (-1)%Z
  /\ (display_width wcswidth_lib newline_value > 60)%Z
  /\ truncate_display wcswidth_lib newline_value MAX_VALUE_WIDTH
     = newline_value
  /\ endswith (truncate_display wcswidth_lib newline_value MAX_VALUE_WIDTH)
       ELLIPSIS = false
  /\ (display_width wcswidth_lib
        (truncate_display wcswidth_lib newline_value MAX_VALUE_WIDTH)
      > 60)%Z.
Proof. repeat split; vm_compute; reflexivity. Qed.

(** [C8] Truncating twice should be truncating once.  The script does
    not keep that when the library's width of a string differs from the
    sum of its characters' widths: with two smiling faces that their
    variation selectors widen, the first pass keeps 58 characters and
    the ellipsis, which the library measures at 61 columns, so the
    second pass cuts again and keeps one full stop more. *)
Theorem truncate_twice_differs :
  truncate_display wcswidth_lib smiley_value MAX_VALUE_WIDTH
  = firstn 58 smiley_value ++ lit "..."
  /\ (wcswidth_lib
        (truncate_display wcswidth_lib smiley_value MAX_VALUE_WIDTH)
      > MAX_VALUE_WIDTH)%Z
  /\ truncate_display wcswidth_lib
       (truncate_display wcswidth_lib smiley_value MAX_VALUE_WIDTH)
       MAX_VALUE_WIDTH
     = firstn 58 smiley_value ++ lit "...."
  /\ truncate_display wcswidth_lib
       (truncate_display wcswidth_lib smiley_value MAX_VALUE_WIDTH)
       MAX_VALUE_WIDTH
     <> truncate_display wcswidth_lib smiley_value MAX_VALUE_WIDTH.
Proof.
  repeat split; try (vm_compute; reflexivity).
  intros E. apply (f_equal (@length char)) in E. vm_compute in E.
  discriminate E.
Qed.

Section LoopCases.
Variable wcswidth : pystr -> Z.
Variable str_float : spec_float -> pystr.
Variable tabulate : list (list pystr) -> list pystr -> pystr.
Variable Path : Type.
Variable path_str : Path -> pystr.
Variable path_name : Path -> pystr.
Variable relative_to : Path -> Path -> option Path.
Variable fs : filesystem Path.
Variable root : Path.

Local Abbreviation tab_file :=
  (fun p => tabulate_file wcswidth str_float tabulate path_str path_name
              relative_to fs p root).

(** The loop goes through its list in order: either every file is
    reported and the loop returns, or it stops at the first file that
    cannot be reported, having opened that file and those before it. *)
Lemma for_each_cases (files : list Path) :
  forall c,
    (Forall (fun p => reportable relative_to fs root p = true) files
     /\ fst (for_each files tab_file c) = Done tt
     /\ opened (snd (for_each files tab_file c)) = opened c ++ files)
    \/ (exists pre f post,
           files = pre ++ f :: post
           /\ Forall (fun p => reportable relative_to fs root p = true) pre
           /\ reportable relative_to fs root f = false
           /\ fst (for_each files tab_file c) <> Done tt
           /\ opened (snd (for_each files tab_file c))
              = opened c ++ pre ++ [f]).
Proof.
  induction files as [| p files IH]; intros c.
  - left. simpl. rewrite app_nil_r. repeat split. constructor.
  - simpl. unfold bind at 1 2 3 4.
    pose proof (tabulate_file_opened wcswidth str_float tabulate path_str
                  path_name relative_to fs root p c) as Hop.
    pose proof (tabulate_file_done wcswidth str_float tabulate path_str
                  path_name relative_to fs p root c) as Hdone.
    destruct (tabulate_file wcswidth str_float tabulate path_str path_name
                relative_to fs p root c) as [[[] | msg | exc] c'];
      simpl in Hop, Hdone.
    + assert (Hp : reportable relative_to fs root p = true)
        by now apply Hdone.
      destruct (IH c')
        as [(Hall & Hret & Hopen)
           | (pre & f & post & -> & Hpre & Hf & Hfail & Hopen)].
      * left. split; [now constructor | split; [exact Hret |]].
        rewrite Hopen, Hop, <- app_assoc. reflexivity.
      * right. exists (p :: pre), f, post.
        split; [reflexivity | split; [now constructor |]].
        split; [exact Hf | split; [exact Hfail |]].
        rewrite Hopen, Hop, <- app_assoc. reflexivity.
    + right. exists [], p, files. simpl. repeat split; auto.
      * destruct (reportable relative_to fs root p); [| reflexivity].
        destruct Hdone as [_ H]. discriminate (H eq_refl).
      * discriminate.
    + right. exists [], p, files. simpl. repeat split; auto.
      * destruct (reportable relative_to fs root p); [| reflexivity].
        destruct Hdone as [_ H]. discriminate (H eq_refl).
      * discriminate.
Qed.
End LoopCases.

(** [C4], as the script has it.  On POSIX paths, when the recursive scan
    lists every entry beneath the project root once: [find_yaml_files]
    returns only entries whose name ends in [.yaml] or [.yml], it
    returns every regular file with such a name, and it returns nothing
    twice.  [main] takes the paths in increasing order, the order being
    lexicographic on the sequence of path components (each component
    compared by code point): with no path it exits at once; otherwise
    it opens them one after the other in that order, all of them when
    each can be reported, and up to the first that cannot otherwise.
    The order depends only on which entries the scan finds, not on the
    order in which it finds them. *)
Theorem discovery_complete_and_sorted
    (wcswidth : pystr -> Z) (str_float : spec_float -> pystr)
    (tabulate : list (list pystr) -> list pystr -> pystr)
    (fs : filesystem Posix.Path) (root : Posix.Path) :
  NoDup (scan fs root) ->
  find (fun d => is_file fs (Posix.joinpath d (lit ".root")))
    (cwd fs :: Posix.parents (cwd fs)) = Some root ->
  let files := find_yaml_files Posix.path_name fs root in
  let order := sorted Posix.path_ltb files in
  let run :=
    main wcswidth str_float tabulate Posix.path_str Posix.path_name
      Posix.path_ltb Posix.parents Posix.joinpath Posix.relative_to fs
      (fresh Posix.Path) in
  (forall p,
      In p files ->
      In p (scan fs root)
      /\ (endswith (Posix.path_name p) (lit ".yaml") = true
          \/ endswith (Posix.path_name p) (lit ".yml") = true))
  /\ (forall p,
         In p (scan fs root) ->
         is_file fs p = true ->
         endswith (Posix.path_name p) (lit ".yaml") = true
         \/ endswith (Posix.path_name p) (lit ".yml") = true ->
         In p files)
  /\ NoDup files
  /\ Permutation order files
  /\ StronglySorted
       (fun p q : list pystr => lex_ltb str_ltb p q = true) order
  /\ (files = [] ->
      run = (SysExit (lit "No YAML files found under project root."),
             fresh Posix.Path))
  /\ (files <> [] ->
      (Forall (fun p => reportable Posix.relative_to fs root p = true) order
       /\ fst run = Done tt
       /\ opened (snd run) = order)
      \/ (exists pre f post,
             order = pre ++ f :: post
             /\ Forall (fun p => reportable Posix.relative_to fs root p = true)
                  pre
             /\ reportable Posix.relative_to fs root f = false
             /\ fst run <> Done tt
             /\ opened (snd run) = pre ++ [f]))
  /\ (forall fs' : filesystem Posix.Path,
         Permutation (scan fs' root) (scan fs root) ->
         sorted Posix.path_ltb (find_yaml_files Posix.path_name fs' root)
         = order).
Proof.
  intros Hscan Hroot files order run.
  assert (Hnd : NoDup files) by now apply find_yaml_files_nodup.
  assert (Hperm : Permutation order files) by apply sorted_perm.
  split; [intros p Hp; now apply find_yaml_files_in in Hp |].
  split; [intros p Hin _ Hname; apply find_yaml_files_in; now split |].
  split; [exact Hnd |]. split; [exact Hperm |].
  split; [| split; [| split]].
  - apply (@sorted_strictly Posix.Path Posix.path_ltb posix_ltb_total).
    + apply (@sorted_sorted Posix.Path Posix.path_ltb posix_ltb_irrefl
               posix_ltb_trans posix_ltb_total).
    + eapply Permutation_NoDup; [symmetry; exact Hperm | exact Hnd].
  - intros Hnone. unfold run, main, bind, find_project_root.
    rewrite Hroot. unfold ret. fold files. rewrite Hnone. reflexivity.
  - intros Hsome.
    assert (Hrun : run
                   = for_each order
                       (fun yf =>
                          tabulate_file wcswidth str_float tabulate
                            Posix.path_str Posix.path_name Posix.relative_to
                            fs yf root)
                       (fresh Posix.Path)).
    { unfold run, main, bind, find_project_root. rewrite Hroot. unfold ret.
      fold files. fold order.
      destruct order as [| p l] eqn:Eo; [| reflexivity].
      exfalso. apply Hsome. now apply Permutation_nil. }
    rewrite Hrun.
    apply (for_each_cases wcswidth str_float tabulate Posix.path_str
             Posix.path_name Posix.relative_to fs root order
             (fresh Posix.Path)).
  - intros fs' Hp.
    apply (@sorted_of_perm Posix.Path Posix.path_ltb posix_ltb_irrefl
             posix_ltb_trans posix_ltb_total).
    now apply find_yaml_files_perm.
Qed.

Lemma discovery_complete_and_sorted_witness :
  NoDup (find_yaml_files Posix.path_name layout_fs proj)
  /\ StronglySorted (fun p q : list pystr => lex_ltb str_ltb p q = true)
       (sorted Posix.path_ltb (find_yaml_files Posix.path_name layout_fs proj))
  /\ (find_yaml_files Posix.path_name layout_fs proj <> [] ->
      (Forall (fun p => reportable Posix.relative_to layout_fs proj p = true)
         (sorted Posix.path_ltb
            (find_yaml_files Posix.path_name layout_fs proj))
       /\ fst (posix_main layout_fs) = Done tt
       /\ opened (snd (posix_main layout_fs))
          = sorted Posix.path_ltb
              (find_yaml_files Posix.path_name layout_fs proj))
      \/ (exists pre f post,
             sorted Posix.path_ltb
               (find_yaml_files Posix.path_name layout_fs proj)
             = pre ++ f :: post
             /\ Forall (fun p => reportable Posix.relative_to layout_fs proj p
                                 = true) pre
             /\ reportable Posix.relative_to layout_fs proj f = false
             /\ fst (posix_main layout_fs) <> Done tt
             /\ opened (snd (posix_main layout_fs)) = pre ++ [f])).
Proof.
  destruct (@discovery_complete_and_sorted cells str_float_special plain_table
              layout_fs proj)
    as (_ & _ & Hnd & _ & Hsorted & _ & Hloop & _).
  - repeat constructor; simpl; intuition discriminate.
  - reflexivity.
  - split; [exact Hnd | split; [exact Hsorted | exact Hloop]].
Defined.

(** [C4] as claimed fails: the order is not the one of the full path
    strings.  The run over the project with the directories [conf] and
    [conf.d] opens [/proj/conf/b.yaml] before [/proj/conf.d/a.yaml],
    although the string [/proj/conf.d/a.yaml] comes first, a full stop
    being smaller than a slash. *)
Lemma processing_order_not_by_path_string :
  fst (posix_main layout_fs) = Done tt
  /\ opened (snd (posix_main layout_fs)) = [conf_b; confd_a; top_yml]
  /\ str_ltb (Posix.path_str confd_a) (Posix.path_str conf_b) = true.
Proof. repeat split. Qed.

(** [X18] [find_yaml_files] does not look at the kind of an entry: when
    the scan lists every entry beneath the root once, it returns
    exactly the entries whose name ends in [.yaml] or [.yml], each
    once, be they files or directories. *)
Theorem find_yaml_files_any_kind (Path : Type) (path_name : Path -> pystr)
    (fs : filesystem Path) (root : Path) :
  NoDup (scan fs root) ->
  NoDup (find_yaml_files path_name fs root)
  /\ (forall p,
         In p (find_yaml_files path_name fs root)
         <-> In p (scan fs root)
             /\ (endswith (path_name p) (lit ".yaml") = true
                 \/ endswith (path_name p) (lit ".yml") = true)).
Proof.
  intros H. split; [now apply find_yaml_files_nodup |].
  intros p. apply find_yaml_files_in.
Qed.

Lemma find_yaml_files_any_kind_witness :
  is_file yaml_dir_fs old_yaml = false
  /\ In old_yaml (find_yaml_files Posix.path_name yaml_dir_fs proj).
Proof.
  split; [reflexivity |].
  apply (proj2 (@find_yaml_files_any_kind Posix.Path Posix.path_name
                  yaml_dir_fs proj
                  ltac:(repeat constructor; simpl; intuition discriminate))).
  split; [now left | now left].
Defined.
